(** * Legion Spy log parser: [tools/spy_parser.py]

    A shallow embedding of [parse_log_file] and of the regular expressions
    it matches log lines against, together with the properties of the
    classifier, of the initial scan and of the replay loop.

    A log is the list of the lines produced by iterating over the opened
    file.  The [state] object (an instance of the class defined in
    [spy_analysis], which [spy_parser.py] imports) is abstract: the parser
    only ever calls its methods, so it is represented by a type of states
    and one function interpreting a method call, returning the truth value
    of the method's result together with the new state. *)

From Stdlib Require Import List String Ascii ZArith Bool Arith Lia Permutation.
Import ListNotations.
Open Scope string_scope.
Open Scope list_scope.

(** ** The fragment of Python's [re] used by the patterns *)

Module Re.

(** The character sets that occur in the patterns. *)
Inductive cclass : Type :=
| Digit        (* [0-9] *)
| HexDigit     (* [0-9a-f] *)
| WordChar     (* \w, no flags: [a-zA-Z0-9_] *)
| ZeroOne      (* [0-1] *)
| DigitComma.  (* [0-9\,] *)

Definition between (lo hi : nat) (a : ascii) : bool :=
  let n := nat_of_ascii a in Nat.leb lo n && Nat.leb n hi.

Definition is_digit (a : ascii) : bool := between 48 57 a.

Definition in_class (c : cclass) (a : ascii) : bool :=
  match c with
  | Digit => is_digit a
  | HexDigit => is_digit a || between 97 102 a
  | WordChar => is_digit a || between 97 122 a || between 65 90 a
                || Ascii.eqb a "_"%char
  | ZeroOne => between 48 49 a
  | DigitComma => is_digit a || Ascii.eqb a ","%char
  end.

(** A pattern is a sequence of items: literal text, one character of a set,
    or a greedy repetition [c+] of a set; the last two may be a named group
    [(?P<name>...)]. *)
Inductive item : Type :=
| Lit (text : string)
| One (name : option string) (c : cclass)
| Many1 (name : option string) (c : cclass).

Definition pattern := list item.

(** A successful match, as the association list of its named groups. *)
Definition groups := list (string * string).

Definition bind_group (name : option string) (v : string)
    (r : option groups) : option groups :=
  match r with
  | None => None
  | Some g => Some (match name with Some n => (n, v) :: g | None => g end)
  end.

(** [strip lit s]: [s] without its prefix [lit], if it starts with it. *)
Fixpoint strip (lit s : string) : option string :=
  match lit with
  | EmptyString => Some s
  | String a lit' =>
      match s with
      | String b s' => if Ascii.eqb a b then strip lit' s' else None
      | EmptyString => None
      end
  end.

(** [c+] followed by the continuation [k]: greedy, the longest run is tried
    first and shorter ones on failure of the continuation. [acc] is the text
    consumed so far. *)
Fixpoint many1 (c : cclass) (k : string -> string -> option groups)
    (acc s : string) : option groups :=
  match s with
  | String a s' =>
      if in_class c a then
        let acc' := (acc ++ String a EmptyString)%string in
        match many1 c k acc' s' with
        | Some g => Some g
        | None => k acc' s'
        end
      else None
  | EmptyString => None
  end.

(** [pat.match(line)]: the pattern is anchored at the start of the line
    and may stop anywhere in it. *)
Fixpoint re_match (p : pattern) (s : string) : option groups :=
  match p with
  | [] => Some []
  | Lit l :: p' =>
      match strip l s with
      | Some s' => re_match p' s'
      | None => None
      end
  | One n c :: p' =>
      match s with
      | String a s' =>
          if in_class c a
          then bind_group n (String a EmptyString) (re_match p' s')
          else None
      | EmptyString => None
      end
  | Many1 n c :: p' =>
      many1 c (fun taken rest => bind_group n taken (re_match p' rest))
        EmptyString s
  end.

(** [m.group(name)] *)
Fixpoint group (m : groups) (name : string) : string :=
  match m with
  | [] => EmptyString
  | (n, v) :: m' => if String.eqb n name then v else group m' name
  end.

(** [int(text)] on a decimal numeral. *)
Definition digit_value (a : ascii) : Z := Z.of_nat (nat_of_ascii a) - 48.

Fixpoint int_from (acc : Z) (s : string) : Z :=
  match s with
  | EmptyString => acc
  | String a s' => int_from (10 * acc + digit_value a) s'
  end.

Definition int (s : string) : Z := int_from 0 s.

End Re.

Import Re.

(** ** The patterns of [spy_parser.py] *)

Definition num (name : string) : item := Many1 (Some name) Digit.
Definition flag (name : string) : item := One (Some name) ZeroOne.
Definition sp : item := Lit " ".

(** [prefix] *)
Definition prefix : pattern :=
  [ Lit "["; Many1 (Some "node") Digit; Lit " - ";
    Many1 (Some "thread") HexDigit; Lit "] {"; Many1 None WordChar;
    Lit "}{legion_spy}: " ].

(** The record kinds, one per compiled pattern, named after it. *)
Inductive kind : Type :=
| utility | processor | memory | proc_mem | mem_mem
| top_index | index_part | index_subspace | field_space | field_create
| region
| top_task | single_task | index_task | mapping | close | copy_op
| deletion | index_slice | slice_slice | slice_point | point_point
| requirement | req_field | mapping_dep
| task_inst_req
| event_event | implicit_event | op_event | copy_event
| physical_inst | physical_reduc | op_user.

(** The keyword phrase of a pattern, with the blank that follows it. *)
Definition keyword (k : kind) : string :=
  match k with
  | utility => "Utility "
  | processor => "Processor "
  | memory => "Memory "
  | proc_mem => "Processor Memory "
  | mem_mem => "Memory Memory "
  | top_index => "Index Space "
  | index_part => "Index Partition "
  | index_subspace => "Index Subspace "
  | field_space => "Field Space "
  | field_create => "Field Creation "
  | region => "Region "
  | top_task => "Top Task "
  | single_task => "Individual Task "
  | index_task => "Index Task "
  | mapping => "Mapping Operation "
  | close => "Close Operation "
  | copy_op => "Copy Operation "
  | deletion => "Deletion Operation "
  | index_slice => "Index Slice "
  | slice_slice => "Slice Slice "
  | slice_point => "Slice Point "
  | point_point => "Point Point "
  | requirement => "Logical Requirement "
  | req_field => "Logical Requirement Field "
  | mapping_dep => "Mapping Dependence "
  | task_inst_req => "Task Instance Requirement "
  | event_event => "Event Event "
  | implicit_event => "Implicit Event "
  | op_event => "Op Events "
  | copy_event => "Copy Events "
  | physical_inst => "Physical Instance "
  | physical_reduc => "Reduction Instance "
  | op_user => "Op Instance User "
  end.

(** The fields that follow the keyword phrase: the first one, and the
    others, each preceded by one blank. *)
Definition fields (k : kind) : string * list item :=
  match k with
  | utility => ("pid", [])
  | processor => ("pid", [num "util"; num "kind"])
  | memory => ("mid", [num "capacity"])
  | proc_mem => ("pid", [num "mid"; num "band"; num "lat"])
  | mem_mem => ("mone", [num "mtwo"; num "band"; num "lat"])
  | top_index => ("uid", [])
  | index_part => ("pid", [num "uid"; flag "disjoint"; num "color"])
  | index_subspace => ("pid", [num "uid"; num "color"])
  | field_space => ("uid", [])
  | field_create => ("uid", [num "fid"])
  | region => ("iid", [num "fid"; num "tid"])
  | top_task => ("tid", [num "uid"; Many1 (Some "name") WordChar])
  | single_task =>
      ("ctx", [num "tid"; num "uid"; Many1 (Some "name") WordChar])
  | index_task =>
      ("ctx", [num "tid"; num "uid"; Many1 (Some "name") WordChar])
  | mapping => ("ctx", [num "uid"])
  | close => ("ctx", [num "uid"])
  | copy_op => ("ctx", [num "uid"])
  | deletion => ("ctx", [num "uid"])
  | index_slice => ("index", [num "slice"])
  | slice_slice => ("slice1", [num "slice2"])
  | slice_point =>
      ("slice", [num "point"; num "dim"; num "val1"; num "val2"; num "val3"])
  | point_point => ("point1", [num "point2"])
  | requirement =>
      ("uid", [num "index"; flag "is_reg"; num "ispace"; num "fspace";
               num "tid"; num "priv"; num "coher"; num "redop"])
  | req_field => ("uid", [num "index"; num "fid"])
  | mapping_dep =>
      ("ctx", [num "prev_id"; num "pidx"; num "next_id"; num "nidx";
               num "dtype"])
  | task_inst_req => ("uid", [num "idx"; num "index"])
  | event_event => ("idone", [num "genone"; num "idtwo"; num "gentwo"])
  | implicit_event => ("idone", [num "genone"; num "idtwo"; num "gentwo"])
  | op_event =>
      ("uid", [num "startid"; num "startgen"; num "termid"; num "termgen"])
  | copy_event =>
      ("srcman", [num "dstman"; num "index"; num "field"; num "tree";
                  num "startid"; num "startgen"; num "termid"; num "termgen";
                  num "redop"; Many1 (Some "mask") DigitComma])
  | physical_inst => ("iid", [num "mid"; num "index"; num "field"; num "tid"])
  | physical_reduc =>
      ("iid", [num "mid"; num "index"; num "field"; num "tid"; flag "fold";
               num "indirect"])
  | op_user => ("uid", [num "idx"; num "iid"])
  end.

Fixpoint spaced (l : list item) : pattern :=
  match l with
  | [] => []
  | i :: l' => sp :: i :: spaced l'
  end.

(** The text of a pattern after [prefix]. *)
Definition body (k : kind) : pattern :=
  Lit (keyword k) :: num (fst (fields k)) :: spaced (snd (fields k)).

(** [utility_pat], [processor_pat], ..., [op_user_pat]. *)
Definition pat (k : kind) : pattern := prefix ++ body k.

(** The patterns in the order in which the scan of the log tries them. *)
Definition scan_order : list kind :=
  [ utility; processor; memory; proc_mem; mem_mem;
    top_index; index_part; index_subspace; field_space; field_create;
    region;
    top_task; single_task; index_task; mapping; close; copy_op;
    deletion; index_slice; slice_slice; slice_point; point_point;
    requirement; req_field; mapping_dep;
    task_inst_req;
    event_event; implicit_event; op_event; copy_event;
    physical_inst; physical_reduc; op_user ].

(** The patterns the replay loop tries, in its order. *)
Definition replay_order : list kind :=
  [ processor; proc_mem; mem_mem; index_part; index_subspace;
    single_task; index_task; mapping; close; copy_op;
    slice_point; point_point;
    requirement; req_field; mapping_dep;
    task_inst_req;
    op_event; copy_event;
    physical_inst; physical_reduc; op_user ].

(** Whether the scan tests the result of the call made for a line of this
    kind ([if not state.add_...(...): replay_lines.append(line)]) or makes
    the call as a statement and drops its result. *)
Definition tested (k : kind) : bool :=
  match k with
  | utility | memory | top_index | field_space | top_task
  | event_event | implicit_event => false
  | _ => true
  end.

(** The first pattern of [ks] that matches the line, with the match. *)
Fixpoint first_match (ks : list kind) (line : string)
    : option (kind * groups) :=
  match ks with
  | [] => None
  | k :: ks' =>
      match re_match (pat k) line with
      | Some m => Some (k, m)
      | None => first_match ks' line
      end
  end.

(** ** The calls made on the [state] object *)

Inductive call : Type :=
| add_utility (pid : Z)
| add_processor (pid util kind : Z)
| add_memory (mid capacity : Z)
| set_proc_mem (pid mid band lat : Z)
| set_mem_mem (mone mtwo band lat : Z)
| add_index_space (uid : Z)
| add_index_partition (pid uid : Z) (disjoint : bool) (color : Z)
| add_index_subspace (pid uid color : Z)
| add_field_space (uid : Z)
| add_field (uid fid : Z)
| add_region (iid fid tid : Z)
| add_top_task (tid uid : Z) (name : string)
| add_single_task (ctx tid uid : Z) (name : string)
| add_index_task (ctx tid uid : Z) (name : string)
| add_mapping (ctx uid : Z)
| add_close (ctx uid : Z)
| add_copy_op (ctx uid : Z)
| add_deletion (ctx uid : Z)
| add_index_slice (index slice : Z)
| add_slice_slice (slice1 slice2 : Z)
| add_slice_point (slice point dim val1 val2 val3 : Z)
| add_point_point (point1 point2 : Z)
| add_requirement (uid index : Z) (is_reg : bool)
    (ispace fspace tid priv coher redop : Z)
| add_req_field (uid index fid : Z)
| add_mapping_dependence (ctx prev_id pidx next_id nidx dtype : Z)
| add_instance_requirement (uid idx index : Z)
| add_event_dependence (idone genone idtwo gentwo : Z)
| add_implicit_dependence (idone genone idtwo gentwo : Z)
| add_op_events (uid startid startgen termid termgen : Z)
| add_copy_events (srcman dstman index field tree
    startid startgen termid termgen redop : Z) (mask : string)
| add_physical_instance (iid mid index field tid : Z)
| add_reduction_instance (iid mid index field tid : Z) (fold : bool)
    (indirect : Z)
| add_op_user (uid idx iid : Z).

(** The call made for a line of kind [k] matched as [m]. *)
Definition call_of (k : kind) (m : groups) : call :=
  let i := fun name => int (group m name) in
  let s := fun name => group m name in
  let b := fun name => Z.eqb (int (group m name)) 1 in
  match k with
  | utility => add_utility (i "pid")
  | processor => add_processor (i "pid") (i "util") (i "kind")
  | memory => add_memory (i "mid") (i "capacity")
  | proc_mem => set_proc_mem (i "pid") (i "mid") (i "band") (i "lat")
  | mem_mem => set_mem_mem (i "mone") (i "mtwo") (i "band") (i "lat")
  | top_index => add_index_space (i "uid")
  | index_part =>
      add_index_partition (i "pid") (i "uid") (b "disjoint") (i "color")
  | index_subspace => add_index_subspace (i "pid") (i "uid") (i "color")
  | field_space => add_field_space (i "uid")
  | field_create => add_field (i "uid") (i "fid")
  | region => add_region (i "iid") (i "fid") (i "tid")
  | top_task => add_top_task (i "tid") (i "uid") (s "name")
  | single_task => add_single_task (i "ctx") (i "tid") (i "uid") (s "name")
  | index_task => add_index_task (i "ctx") (i "tid") (i "uid") (s "name")
  | mapping => add_mapping (i "ctx") (i "uid")
  | close => add_close (i "ctx") (i "uid")
  | copy_op => add_copy_op (i "ctx") (i "uid")
  | deletion => add_deletion (i "ctx") (i "uid")
  | index_slice => add_index_slice (i "index") (i "slice")
  | slice_slice => add_slice_slice (i "slice1") (i "slice2")
  | slice_point =>
      add_slice_point (i "slice") (i "point") (i "dim")
        (i "val1") (i "val2") (i "val3")
  | point_point => add_point_point (i "point1") (i "point2")
  | requirement =>
      add_requirement (i "uid") (i "index") (b "is_reg") (i "ispace")
        (i "fspace") (i "tid") (i "priv") (i "coher") (i "redop")
  | req_field => add_req_field (i "uid") (i "index") (i "fid")
  | mapping_dep =>
      add_mapping_dependence (i "ctx") (i "prev_id") (i "pidx")
        (i "next_id") (i "nidx") (i "dtype")
  | task_inst_req =>
      add_instance_requirement (i "uid") (i "idx") (i "index")
  | event_event =>
      add_event_dependence (i "idone") (i "genone") (i "idtwo") (i "gentwo")
  | implicit_event =>
      add_implicit_dependence (i "idone") (i "genone") (i "idtwo")
        (i "gentwo")
  | op_event =>
      add_op_events (i "uid") (i "startid") (i "startgen") (i "termid")
        (i "termgen")
  | copy_event =>
      add_copy_events (i "srcman") (i "dstman") (i "index") (i "field")
        (i "tree") (i "startid") (i "startgen") (i "termid") (i "termgen")
        (i "redop") (s "mask")
  | physical_inst =>
      add_physical_instance (i "iid") (i "mid") (i "index") (i "field")
        (i "tid")
  | physical_reduc =>
      add_reduction_instance (i "iid") (i "mid") (i "index") (i "field")
        (i "tid") (b "fold") (i "indirect")
  | op_user => add_op_user (i "uid") (i "idx") (i "iid")
  end.

(** ** [parse_log_file] *)

(** How a run ends.  [ValueError] is what [replay_lines.remove(line)] raises
    on a line that is not in the list; [OutOfFuel] is not a Python outcome,
    it is what the bounded loop below answers when its bound is reached. *)
Inductive outcome : Type :=
| Returned (matches : Z)
| AssertionError
| ValueError
| OutOfFuel.

(** One iteration of the [while] loop: [replay_lines] when it starts, the
    set [to_delete] it computes, and [replay_lines] when it ends. *)
Record pass : Type := mkPass {
  before : list string;
  resolved : list string;
  after : list string
}.

Definition skipping (line : string) : string :=
  ("Skipping unmatched line: " ++ line)%string.

Definition no_progress : string :=
  "ERROR: NO PROGRESS PARSING! BUG IN LEGION SPY LOGGING ASSUMPTIONS!".

(** [to_delete.add(line)]: the set is kept as the list of its distinct
    elements. *)
Definition set_add (line : string) (s : list string) : list string :=
  if existsb (String.eqb line) s then s else s ++ [line].

(** [l.remove(x)]: drops the first element equal to [x]; [None] stands for
    the [ValueError] raised when there is none. *)
Fixpoint list_remove (x : string) (l : list string) : option (list string) :=
  match l with
  | [] => None
  | y :: l' =>
      if String.eqb y x then Some l'
      else match list_remove x l' with
           | Some r => Some (y :: r)
           | None => None
           end
  end.

(** [for line in to_delete: replay_lines.remove(line)] *)
Fixpoint remove_each (to_delete replay_lines : list string)
    : option (list string) :=
  match to_delete with
  | [] => Some replay_lines
  | x :: to_delete' =>
      match list_remove x replay_lines with
      | Some r => remove_each to_delete' r
      | None => None
      end
  end.

Section Parser.

Context {State : Type}.

(** [invoke c s]: the method call [c] on the state object in state [s];
    the truth value of what it returns, and the state it leaves. *)
Variable invoke : call -> State -> bool * State.

(** The local variables of the scan, the state object and what has been
    printed. *)
Record scan_vars : Type := mkScan {
  matches : Z;
  replay_lines : list string;
  scan_state : State;
  printed : list string
}.

(** The body of [for line in log]. *)
Definition scan_line (v : scan_vars) (line : string) : scan_vars :=
  let matches1 := (matches v + 1)%Z in
  match first_match scan_order line with
  | Some (k, m) =>
      let (ok, s') := invoke (call_of k m) (scan_state v) in
      if tested k && negb ok
      then mkScan matches1 (replay_lines v ++ [line]) s' (printed v)
      else mkScan matches1 (replay_lines v) s' (printed v)
  | None =>
      mkScan (matches1 - 1)%Z (replay_lines v) (scan_state v)
        (printed v ++ [skipping line])
  end.

Definition scan_from (v : scan_vars) (log : list string) : scan_vars :=
  fold_left scan_line log v.

Definition scan (log : list string) (s : State) : scan_vars :=
  scan_from (mkScan 0 [] s []) log.

(** The body of [for line in replay_lines], on the state and [to_delete]. *)
Definition replay_line (v : State * list string) (line : string)
    : State * list string :=
  match first_match replay_order line with
  | Some (k, m) =>
      let (ok, s') := invoke (call_of k m) (fst v) in
      (s', if ok then set_add line (snd v) else snd v)
  | None => v
  end.

Definition replay_pass (s : State) (lines : list string)
    : State * list string :=
  fold_left replay_line lines (s, []).

(** What a run leaves: how it ended, the state object, the text printed,
    and two observations of the loop that Python does not return: the value
    of [replay_lines] when the run ended, and the iterations made. *)
Record result : Type := mkResult {
  ending : outcome;
  final_state : State;
  stdout : list string;
  deferred : list string;
  passes : list pass
}.

Definition after_pass (p : pass) (r : result) : result :=
  mkResult (ending r) (final_state r) (stdout r) (deferred r) (p :: passes r).

(** [while len(replay_lines) > 0: ...; return matches], with a bound on
    the number of iterations. *)
Fixpoint replay_loop (fuel : nat) (count : Z) (s : State)
    (lines : list string) (out : list string) : result :=
  match lines with
  | [] => mkResult (Returned count) s out [] []
  | _ :: _ =>
      match fuel with
      | O => mkResult OutOfFuel s out lines []
      | S fuel' =>
          let (s', to_delete) := replay_pass s lines in
          match to_delete with
          | [] =>
              mkResult AssertionError s' (out ++ [no_progress]) lines
                [mkPass lines [] lines]
          | _ :: _ =>
              match remove_each to_delete lines with
              | None => mkResult ValueError s' out lines []
              | Some lines' =>
                  after_pass (mkPass lines to_delete lines')
                    (replay_loop fuel' count s' lines' out)
              end
          end
      end
  end.

(** [parse_log_file(file_name, state)] on the lines of the file.  Every
    iteration of the loop that does not raise removes a line, so the number
    of deferred lines bounds the number of iterations (see
    [replay_loop_fuel]). *)
Definition parse_log_file (log : list string) (s : State) : result :=
  let v := scan log s in
  replay_loop (List.length (replay_lines v)) (matches v) (scan_state v)
    (replay_lines v) (printed v).

End Parser.

Arguments scan_vars : clear implicits.
Arguments result : clear implicits.

(** ** State objects used to run the parser *)

(** A state object that also keeps the list of the calls made on it, each
    with the truth value it returned. *)
Definition recording {State : Type} (invoke : call -> State -> bool * State)
    (c : call) (s : State * list (call * bool))
    : bool * (State * list (call * bool)) :=
  let (ok, s') := invoke c (fst s) in (ok, (s', snd s ++ [(c, ok)])).

Module Mock.

(** Modelled from the spec: the class of the [state] object lives in
    [spy_analysis], which is not among the sources.  This stand-in follows
    the mutation-call contract of the spec: a call that refers to entities
    returns false and changes nothing while one of them is absent, and
    otherwise commits and returns true; a call that refers to nothing
    always commits.  The state is the list of the committed calls.  A
    processor refers to its utility processor (field [util]) and an event
    edge to its two events, which operations declare. *)
Definition state := list call.

Definition has_utility (u : Z) (s : state) : bool :=
  existsb (fun c => match c with
                    | add_utility pid => Z.eqb pid u
                    | _ => false end) s.

Definition has_processor (p : Z) (s : state) : bool :=
  existsb (fun c => match c with
                    | add_processor pid _ _ => Z.eqb pid p
                    | _ => false end) s.

Definition has_memory (m : Z) (s : state) : bool :=
  existsb (fun c => match c with
                    | add_memory mid _ => Z.eqb mid m
                    | _ => false end) s.

Definition has_index_space (i : Z) (s : state) : bool :=
  existsb (fun c => match c with
                    | add_index_space uid => Z.eqb uid i
                    | add_index_subspace _ uid _ => Z.eqb uid i
                    | _ => false end) s.

Definition has_partition (p : Z) (s : state) : bool :=
  existsb (fun c => match c with
                    | add_index_partition _ uid _ _ => Z.eqb uid p
                    | _ => false end) s.

Definition has_field_space (f : Z) (s : state) : bool :=
  existsb (fun c => match c with
                    | add_field_space uid => Z.eqb uid f
                    | _ => false end) s.

Definition has_op (u : Z) (s : state) : bool :=
  existsb (fun c => match c with
                    | add_top_task _ uid _
                    | add_single_task _ _ uid _
                    | add_index_task _ _ uid _
                    | add_mapping _ uid
                    | add_close _ uid
                    | add_copy_op _ uid
                    | add_deletion _ uid
                    | add_index_slice _ uid
                    | add_slice_slice _ uid
                    | add_slice_point _ uid _ _ _ _
                    | add_point_point _ uid => Z.eqb uid u
                    | _ => false end) s.

Definition has_instance (i : Z) (s : state) : bool :=
  existsb (fun c => match c with
                    | add_physical_instance iid _ _ _ _
                    | add_reduction_instance iid _ _ _ _ _ _ => Z.eqb iid i
                    | _ => false end) s.

Definition has_event (id gen : Z) (s : state) : bool :=
  existsb (fun c => match c with
                    | add_op_events _ a b c d
                    | add_copy_events _ _ _ _ _ a b c d _ _ =>
                        (Z.eqb a id && Z.eqb b gen)
                        || (Z.eqb c id && Z.eqb d gen)
                    | _ => false end) s.

Definition ready (c : call) (s : state) : bool :=
  match c with
  | add_utility _ | add_memory _ _ | add_index_space _ | add_field_space _
  | add_top_task _ _ _ => true
  | add_processor _ util _ => has_utility util s
  | set_proc_mem pid mid _ _ => has_processor pid s && has_memory mid s
  | set_mem_mem mone mtwo _ _ => has_memory mone s && has_memory mtwo s
  | add_index_partition pid _ _ _ => has_index_space pid s
  | add_index_subspace pid _ _ => has_partition pid s
  | add_field uid _ => has_field_space uid s
  | add_region iid fid _ => has_index_space iid s && has_field_space fid s
  | add_single_task ctx _ _ _ | add_index_task ctx _ _ _
  | add_mapping ctx _ | add_close ctx _ | add_copy_op ctx _
  | add_deletion ctx _ => has_op ctx s
  | add_index_slice a _ | add_slice_slice a _ | add_slice_point a _ _ _ _ _
  | add_point_point a _ => has_op a s
  | add_requirement uid _ _ _ _ _ _ _ _ | add_req_field uid _ _
  | add_instance_requirement uid _ _
  | add_op_events uid _ _ _ _ => has_op uid s
  | add_mapping_dependence ctx prev_id _ next_id _ _ =>
      has_op ctx s && has_op prev_id s && has_op next_id s
  | add_event_dependence a b c d | add_implicit_dependence a b c d =>
      has_event a b s && has_event c d s
  | add_copy_events srcman dstman _ _ _ _ _ _ _ _ _ =>
      has_instance srcman s && has_instance dstman s
  | add_physical_instance _ mid index field _
  | add_reduction_instance _ mid index field _ _ _ =>
      has_memory mid s && has_index_space index s && has_field_space field s
  | add_op_user uid _ iid => has_op uid s && has_instance iid s
  end.

Definition invoke (c : call) (s : state) : bool * state :=
  if ready c s then (true, s ++ [c]) else (false, s).

(** A log line: the logger's prefix, the text, and the end of line. *)
Definition line (text : string) : string :=
  ("[0 - 7f3a] {3}{legion_spy}: " ++ text
     ++ String (ascii_of_nat 10) EmptyString)%string.

(** The parser on the stand-in, recording the calls. *)
Definition run (log : list string) : result (state * list (call * bool)) :=
  parse_log_file (recording invoke) log ([], []).

End Mock.

(** ** Definitions used to state the properties *)

Module Classifier.

Fixpoint all_in (c : cclass) (t : string) : bool :=
  match t with
  | EmptyString => true
  | String a t' => in_class c a && all_in c t'
  end.

(** What is left of [s] after its longest run of characters of [c]. *)
Fixpoint span (c : cclass) (s : string) : string :=
  match s with
  | String a s' => if in_class c a then span c s' else s
  | EmptyString => EmptyString
  end.

(** A pattern in which every repetition is followed by literal text that
    starts with a character outside the repeated set: the repetition can
    only stop at the end of the run. *)
Fixpoint unambiguous (p : pattern) : bool :=
  match p with
  | [] => true
  | Many1 _ c :: p' =>
      match p' with
      | Lit (String b _) :: _ => negb (in_class c b)
      | _ => false
      end && unambiguous p'
  | _ :: p' => unambiguous p'
  end.

(** What such a pattern leaves of a line, read without backtracking. *)
Fixpoint skip (p : pattern) (s : string) : option string :=
  match p with
  | [] => Some s
  | Lit l :: p' =>
      match strip l s with
      | Some s' => skip p' s'
      | None => None
      end
  | One _ c :: p' =>
      match s with
      | String a s' => if in_class c a then skip p' s' else None
      | EmptyString => None
      end
  | Many1 _ c :: p' =>
      match s with
      | String a s' => if in_class c a then skip p' (span c s') else None
      | EmptyString => None
      end
  end.

(** The line starts with the keyword phrase and then a digit. *)
Definition headed (kw r : string) : bool :=
  match strip kw r with
  | Some (String a _) => is_digit a
  | _ => false
  end.

(** Two keyword phrases that can head the same text: they agree up to the
    end of the shorter one, where the longer one has a digit. *)
Fixpoint clash (k1 k2 : string) : bool :=
  match k1, k2 with
  | EmptyString, EmptyString => true
  | EmptyString, String b _ => is_digit b
  | String a _, EmptyString => is_digit a
  | String a k1', String b k2' => Ascii.eqb a b && clash k1' k2'
  end.

End Classifier.

Definition kind_eq_dec (a b : kind) : {a = b} + {a <> b}.
Proof. decide equality. Defined.

(** The list of patterns [ks] has the pattern of kind [k]. *)
Definition kind_in (k : kind) (ks : list kind) : bool :=
  if in_dec kind_eq_dec k ks then true else false.

(** The line reaches the end of the body of the scan: no pattern has
    matched it. *)
Definition unmatched (line : string) : bool :=
  match first_match scan_order line with Some _ => false | None => true end.

Definition matched (line : string) : bool := negb (unmatched line).

(** The iterations follow one another: each starts, on a list that is not
    empty, from what the one before has left. *)
Fixpoint linked (start : list string) (ps : list pass) (final : list string)
    : Prop :=
  match ps with
  | [] => start = final
  | p :: ps' => before p = start /\ start <> [] /\ linked (after p) ps' final
  end.

(** An iteration that resolves lines and removes them. *)
Definition progress (p : pass) : Prop :=
  resolved p <> []
  /\ remove_each (resolved p) (before p) = Some (after p)
  /\ List.length (after p) < List.length (before p).

(** An iteration that resolves nothing. *)
Definition stalled (p : pass) : Prop :=
  resolved p = [] /\ after p = before p.

(** Two values of the variables of the scan that differ at most in what
    has been printed. *)
Definition same_vars {State : Type} (v v' : scan_vars State) : Prop :=
  matches v = matches v' /\ replay_lines v = replay_lines v'
  /\ scan_state v = scan_state v'.

(** What a run on a recording state object shows once the record of the
    calls is dropped. *)
Definition erase_scan {State : Type}
    (v : scan_vars (State * list (call * bool))) : scan_vars State :=
  mkScan (matches v) (replay_lines v) (fst (scan_state v)) (printed v).

Definition erase_result {State : Type}
    (r : result (State * list (call * bool))) : result State :=
  mkResult (ending r) (fst (final_state r)) (stdout r) (deferred r)
    (passes r).

(** ** Example logs *)

Module Examples.

(** [needle] occurs in [hay]. *)
Fixpoint occurs (needle hay : string) : bool :=
  match hay with
  | EmptyString => String.prefix needle hay
  | String _ hay' => String.prefix needle hay || occurs needle hay'
  end.

(** The least an enumeration of an unresolved record has to show: every
    value of a field of the record (the groups of its match after [node]
    and [thread]) occurs in the text printed. *)
Definition reported (out : list string) (line : string) : bool :=
  match first_match scan_order line with
  | Some (_, m) =>
      forallb (fun nv => existsb (occurs (snd nv)) out) (skipn 2 m)
  | None => false
  end.

(** The number of times the call [c] was made and returned [ok]. *)
Definition call_eq_dec (a b : call) : {a = b} + {a <> b}.
Proof.
  decide equality; try apply Z.eq_dec; try apply string_dec;
    try apply bool_dec.
Defined.

Definition made (c : call) (ok : bool) (trace : list (call * bool)) : nat :=
  List.length
    (filter (fun e => (if call_eq_dec (fst e) c then true else false)
                      && Bool.eqb (snd e) ok) trace).

(** An index subspace whose partition is declared nowhere. *)
Definition subspace_line : string := Mock.line "Index Subspace 5 6 0".
Definition orphan_log : list string := [subspace_line].

(** A processor logged before its utility processor. *)
Definition processor_line : string := Mock.line "Processor 7 0 1".
Definition processor_log : list string :=
  [processor_line; Mock.line "Utility 0"].

(** An event edge between events that no operation declares. *)
Definition event_line : string := Mock.line "Event Event 1 0 2 0".
Definition event_log : list string := [event_line].

(** A field logged before its field space, and the like for the other
    kinds that the scan defers and the loop does not try. *)
Definition field_log : list string :=
  [Mock.line "Field Creation 1 2"; Mock.line "Field Space 1"].
Definition region_log : list string :=
  [Mock.line "Region 1 2 3"; Mock.line "Index Space 1";
   Mock.line "Field Space 2"].
Definition deletion_log : list string :=
  [Mock.line "Deletion Operation 1 2"; Mock.line "Top Task 0 1 main"].
Definition index_slice_log : list string :=
  [Mock.line "Index Slice 1 2"; Mock.line "Top Task 0 1 main"].
Definition slice_slice_log : list string :=
  [Mock.line "Slice Slice 1 2"; Mock.line "Top Task 0 1 main"].

(** The same affinity logged twice, before its memory and its processor. *)
Definition affinity_line : string := Mock.line "Processor Memory 7 3 10 20".
Definition twice_log : list string :=
  [affinity_line; affinity_line; Mock.line "Memory 3 100";
   Mock.line "Utility 0"; Mock.line "Processor 7 0 1"].

(** A log with a line that matches no pattern. *)
Definition banner_log1 : list string := [processor_line].
Definition banner : string := Mock.line "hello".
Definition banner_log2 : list string := [Mock.line "Utility 0"].

End Examples.

(** Runs the parser on a concrete log, conjunct by conjunct. *)
Ltac run_parser :=
  repeat match goal with |- _ /\ _ => split end; vm_compute; reflexivity.

Import Examples.

(** ** Lines of the shape of a pattern, and the calls of a run *)

Module Shape.


(** The text of the shape of a pattern: its literal texts, with the next
    of the given values in the place of each character or repetition. *)
Fixpoint render (p : pattern) (vs : list string) : string :=
  match p with
  | [] => EmptyString
  | Lit l :: p' => (l ++ render p' vs)%string
  | One _ _ :: p' | Many1 _ _ :: p' =>
      match vs with
      | v :: vs' => (v ++ render p' vs')%string
      | [] => render p' []
      end
  end.

(** The groups these values are to be bound to. *)
Fixpoint bound (p : pattern) (vs : list string) : groups :=
  match p with
  | [] => []
  | Lit _ :: p' => bound p' vs
  | One n _ :: p' | Many1 n _ :: p' =>
      match vs with
      | v :: vs' =>
          match n with
          | Some x => (x, v) :: bound p' vs'
          | None => bound p' vs'
          end
      | [] => bound p' []
      end
  end.

(** The text does not go on with a character of the set. *)
Definition stops (c : cclass) (rest : string) : bool :=
  match rest with
  | EmptyString => true
  | String b _ => negb (in_class c b)
  end.

(** There is a value for every character and repetition of the pattern;
    the value of a character is one character of its set; the value of a
    repetition is a text of characters of its set, not empty, after which
    the line, ended by [tail], does not go on with a character of the set. *)
Fixpoint separated (p : pattern) (vs : list string) (tail : string) : bool :=
  match p with
  | [] => match vs with [] => true | _ :: _ => false end
  | Lit _ :: p' => separated p' vs tail
  | One _ c :: p' =>
      match vs with
      | String a EmptyString :: vs' => in_class c a && separated p' vs' tail
      | _ => false
      end
  | Many1 _ c :: p' =>
      match vs with
      | String a v :: vs' =>
          in_class c a && Classifier.all_in c v
          && stops c (render p' vs' ++ tail)%string
          && separated p' vs' tail
      | _ => false
      end
  end.

End Shape.

(** The call the scan makes for a line, if any. *)
Definition scan_call (line : string) : list call :=
  match first_match scan_order line with
  | Some (k, m) => [call_of k m]
  | None => []
  end.

(** The call an iteration of the loop makes for a deferred line, if any. *)
Definition replay_call (line : string) : list call :=
  match first_match replay_order line with
  | Some (k, m) => [call_of k m]
  | None => []
  end.

(** The lines of the log that the scan defers, read off the results of
    the calls it made, in the order it made them: the lines of a kind whose
    call is tested, for which the call returned false. *)
Fixpoint deferred_by (log : list string) (t : list (call * bool))
    : list string :=
  match log with
  | [] => []
  | line :: log' =>
      match first_match scan_order line with
      | None => deferred_by log' t
      | Some (k, _) =>
          match t with
          | (_, ok) :: t' =>
              if tested k && negb ok then line :: deferred_by log' t'
              else deferred_by log' t'
          | [] => []
          end
      end
  end.

(** The lines of [l], some left out, in the order of [l]. *)
Inductive subseq : list string -> list string -> Prop :=
| subseq_nil : subseq [] []
| subseq_keep x l1 l2 : subseq l1 l2 -> subseq (x :: l1) (x :: l2)
| subseq_drop x l1 l2 : subseq l1 l2 -> subseq l1 (x :: l2).


(** ** The options of the test driver: [test.py] *)

Module TestDriver.

(** [os.environ], and a dictionary given by the list of pairs it is built
    from, in which a later pair overrides an earlier one with the same
    key. *)
Definition items := list (string * string).

(** [d[key]], or [None] when [key in d] is false. *)
Fixpoint dict_get (d : items) (key : string) : option string :=
  match d with
  | [] => None
  | (k, v) :: d' =>
      match dict_get d' key with
      | Some v' => Some v'
      | None => if String.eqb k key then Some v else None
      end
  end.

(** [s.upper()], on the letters of ASCII. *)
Definition upper_char (a : ascii) : ascii :=
  if between 97 122 a then ascii_of_nat (nat_of_ascii a - 32) else a.

Fixpoint upper (s : string) : string :=
  match s with
  | EmptyString => EmptyString
  | String a s' => String (upper_char a) (upper s')
  end.

(** [option_enabled(option, options, var_prefix, default)] *)
Definition option_enabled (environ : items) (name : string)
    (options : option (list string)) (var_prefix : string) (default : bool)
    : bool :=
  match options with
  | Some l => existsb (String.eqb name) l
  | None =>
      let option_var := (var_prefix ++ upper name)%string in
      match dict_get environ option_var with
      | Some v => String.eqb v "1"
      | None => default
      end
  end.

(** [run_tests]: the test modules to run. *)
Record modules : Type := mkModules {
  test_regent : bool;
  test_legion_cxx : bool;
  test_fuzzer : bool;
  test_realm : bool;
  test_external : bool;
  test_private : bool;
  test_perf : bool
}.

Definition module_enabled (environ : items) (test_modules : option (list string))
    (module : string) (default : bool) : bool :=
  option_enabled environ module test_modules "TEST_" default.

Definition modules_enabled (environ : items)
    (test_modules : option (list string)) (debug : bool) : modules :=
  mkModules
    (module_enabled environ test_modules "regent" true)
    (module_enabled environ test_modules "legion_cxx" true)
    (module_enabled environ test_modules "fuzzer" debug)
    (module_enabled environ test_modules "realm" (negb debug))
    (module_enabled environ test_modules "external" false)
    (module_enabled environ test_modules "private" false)
    (module_enabled environ test_modules "perf" false).

(** [run_tests]: the features to build with. *)
Record features : Type := mkFeatures {
  use_gasnet : bool;
  use_cuda : bool;
  use_llvm : bool;
  use_hdf : bool;
  use_spy : bool;
  use_cmake : bool;
  use_rdir : bool
}.

Definition feature_enabled (environ : items) (use_features : option (list string))
    (feature : string) (default : bool) : bool :=
  option_enabled environ feature use_features "USE_" default.

Definition features_enabled (environ : items)
    (use_features : option (list string)) : features :=
  mkFeatures
    (feature_enabled environ use_features "gasnet" false)
    (feature_enabled environ use_features "cuda" false)
    (feature_enabled environ use_features "llvm" false)
    (feature_enabled environ use_features "hdf" false)
    (feature_enabled environ use_features "spy" false)
    (feature_enabled environ use_features "cmake" false)
    (feature_enabled environ use_features "rdir" true).

(** ['1' if b else '0'] *)
Definition one_zero (b : bool) : string := if b then "1" else "0".

(** [sep.join(l)] *)
Fixpoint join (sep : string) (l : list string) : string :=
  match l with
  | [] => EmptyString
  | [x] => x
  | x :: l' => (x ++ sep ++ join sep l')%string
  end.

Fixpoint ends_with_slash (s : string) : bool :=
  match s with
  | EmptyString => false
  | String a EmptyString => Ascii.eqb a "/"%char
  | String _ s' => ends_with_slash s'
  end.

(** [os.path.join(a, b)], of [posixpath]. *)
Definition path_join (a b : string) : string :=
  if String.prefix "/" b then b
  else match a with
       | EmptyString => b
       | _ => if ends_with_slash a then (a ++ b)%string
              else (a ++ "/" ++ b)%string
       end.

(** [run_tests]: the pairs that are added to those of [os.environ], and
    the test environment [env], with [launcher] the list it is at this
    point of the function. *)
Definition exported (debug : bool) (launcher : list string) (f : features)
    (root_dir : string) : items :=
  [ ("DEBUG", one_zero debug);
    ("LAUNCHER", join " " launcher);
    ("USE_GASNET", one_zero (use_gasnet f));
    ("USE_CUDA", one_zero (use_cuda f));
    ("USE_LLVM", one_zero (use_llvm f));
    ("USE_HDF", one_zero (use_hdf f));
    ("TEST_HDF", one_zero (use_hdf f));
    ("USE_SPY", one_zero (use_spy f));
    ("TEST_SPY", one_zero (use_spy f));
    ("USE_RDIR", one_zero (use_rdir f));
    ("LG_RT_DIR", path_join root_dir "runtime") ].

Definition test_env (environ : items) (debug : bool) (launcher : list string)
    (f : features) (root_dir : string) : items :=
  environ ++ exported debug launcher f root_dir.

(** [run_tests]: GASNet needs a launcher. *)
Definition launcher_missing (f : features) (launcher : option string) : bool :=
  use_gasnet f && match launcher with None => true | Some _ => false end.

End TestDriver.

(** ** The classifier: at most one pattern matches a line *)

Module ClassifierFacts.

Import Classifier.

Lemma append_assoc (a b c : string) :
  ((a ++ b) ++ c = a ++ (b ++ c))%string.
Proof. induction a as [|x a IH]; simpl; [|rewrite IH]; reflexivity. Qed.

Lemma strip_app (l s r : string) :
  strip l s = Some r -> s = (l ++ r)%string.
Proof.
  revert s; induction l as [|a l IH]; intros s H; simpl in *.
  - now inversion H.
  - destruct s as [|b s]; [discriminate|].
    destruct (Ascii.eqb a b) eqn:E; [|discriminate].
    apply Ascii.eqb_eq in E; subst b. now rewrite (IH s H).
Qed.

Lemma bind_group_some n v r g :
  bind_group n v r = Some g -> exists g', r = Some g'.
Proof. destruct r; simpl; [eauto|discriminate]. Qed.

Lemma many1_inv c k : forall s acc g,
  many1 c k acc s = Some g ->
  exists a t r, s = String a (t ++ r)%string
                /\ in_class c a = true /\ all_in c t = true
                /\ k (acc ++ String a t)%string r = Some g.
Proof.
  induction s as [|a s IH]; intros acc g H; simpl in H; [discriminate|].
  destruct (in_class c a) eqn:Ha; [|discriminate].
  destruct (many1 c k (acc ++ String a "")%string s) eqn:E.
  - inversion H; subst g0.
    destruct (IH _ _ E) as (a' & t & r & -> & Ha' & Ht & Hk).
    exists a, (String a' t), r. simpl. rewrite Ha', Ht.
    repeat split; auto.
    now rewrite append_assoc in Hk.
  - exists a, EmptyString, s. simpl. repeat split; auto.
Qed.

Lemma span_run c t b r :
  all_in c t = true -> in_class c b = false ->
  span c (t ++ String b r)%string = String b r.
Proof.
  intros Ht Hb; induction t as [|a t IH]; simpl in *.
  - now rewrite Hb.
  - apply andb_prop in Ht as [-> Ht]. auto.
Qed.

(** Whatever the backtracking matcher accepts through an unambiguous
    pattern, the rest of the pattern is matched on the text [skip] finds. *)
Lemma skip_sound (p q : pattern) : forall s g,
  unambiguous p = true ->
  re_match (p ++ q) s = Some g ->
  exists r g', skip p s = Some r /\ re_match q r = Some g'.
Proof.
  induction p as [|i p IH]; intros s g U H.
  - exists s, g. auto.
  - destruct i as [l|n c|n c]; simpl in U, H |- *.
    + destruct (strip l s); [eauto|discriminate].
    + destruct s as [|a s]; [discriminate|].
      destruct (in_class c a); [|discriminate].
      apply bind_group_some in H as [g' H]. eauto.
    + apply andb_prop in U as [U1 U2].
      destruct (many1_inv _ _ _ _ _ H) as (a & t & r & -> & Ha & Ht & Hk).
      rewrite Ha. apply bind_group_some in Hk as [g' Hk].
      destruct p as [|[[|b l]|?|?] p]; try discriminate.
      apply negb_true_iff in U1.
      assert (Hr : exists r0, r = String b r0).
      { simpl in Hk. destruct r as [|b' r0]; [discriminate|].
        destruct (Ascii.eqb b b') eqn:E; [|discriminate].
        apply Ascii.eqb_eq in E; subst. eauto. }
      destruct Hr as [r0 ->]. rewrite (span_run _ _ _ _ Ht U1).
      eapply IH; eauto.
Qed.

Lemma body_headed (k : kind) (r : string) (g : groups) :
  re_match (body k) r = Some g -> headed (keyword k) r = true.
Proof.
  unfold body, headed, num. simpl. intros H.
  destruct (strip (keyword k) r) as [r'|]; [|discriminate].
  destruct (many1_inv _ _ _ _ _ H) as (a & t & r0 & -> & Ha & _).
  exact Ha.
Qed.

Lemma headed_clash : forall k1 k2 r,
  headed k1 r = true -> headed k2 r = true -> clash k1 k2 = true.
Proof.
  unfold headed.
  induction k1 as [|a k1 IH]; intros [|b k2] r H1 H2; simpl in *; auto.
  - destruct r as [|c r]; [discriminate|].
    destruct (Ascii.eqb b c) eqn:E; [|discriminate].
    apply Ascii.eqb_eq in E; now subst.
  - destruct r as [|c r]; [discriminate|].
    destruct (Ascii.eqb a c) eqn:E; [|discriminate].
    apply Ascii.eqb_eq in E; now subst.
  - destruct r as [|c r]; [discriminate|].
    destruct (Ascii.eqb a c) eqn:Ea; [|discriminate].
    destruct (Ascii.eqb b c) eqn:Eb; [|discriminate].
    apply Ascii.eqb_eq in Ea, Eb; subst.
    rewrite Ascii.eqb_refl. simpl. eauto.
Qed.

Lemma keyword_clash (k1 k2 : kind) :
  clash (keyword k1) (keyword k2) = true -> k1 = k2.
Proof.
  destruct k1, k2; intros H; try reflexivity; vm_compute in H; discriminate.
Qed.

(** Two patterns that match the same line are the same pattern. *)
Lemma match_unique (k1 k2 : kind) (line : string) (g1 g2 : groups) :
  re_match (pat k1) line = Some g1 -> re_match (pat k2) line = Some g2 ->
  k1 = k2.
Proof.
  unfold pat. intros H1 H2.
  destruct (skip_sound prefix _ _ _ eq_refl H1) as (r1 & g1' & S1 & B1).
  destruct (skip_sound prefix _ _ _ eq_refl H2) as (r2 & g2' & S2 & B2).
  rewrite S1 in S2. inversion S2; subst r2.
  apply keyword_clash.
  apply (headed_clash _ _ r1); eapply body_headed; eauto.
Qed.

End ClassifierFacts.

(** ** Facts about [first_match] *)

Arguments pat : simpl never.

Lemma first_match_some ks line k m :
  first_match ks line = Some (k, m) ->
  In k ks /\ re_match (pat k) line = Some m.
Proof.
  induction ks as [|k' ks IH]; cbn [first_match In]; [discriminate|].
  destruct (re_match (pat k') line) eqn:E.
  - intros H; inversion H; subst. auto.
  - intros H. destruct (IH H). auto.
Qed.

Lemma first_match_found ks line k m :
  In k ks -> re_match (pat k) line = Some m ->
  first_match ks line = Some (k, m).
Proof.
  induction ks as [|k' ks IH]; cbn [first_match In]; [tauto|]. intros Hin Hm.
  destruct (re_match (pat k') line) eqn:E.
  - assert (k' = k) by (eapply ClassifierFacts.match_unique; eauto).
    subst. congruence.
  - destruct Hin as [->|Hin]; [congruence | auto].
Qed.

Lemma first_match_none ks line :
  first_match ks line = None <->
  forall k, In k ks -> re_match (pat k) line = None.
Proof.
  induction ks as [|k' ks IH]; cbn [first_match In].
  - tauto.
  - destruct (re_match (pat k') line) eqn:E; split.
    + discriminate.
    + intros H. rewrite (H k') in E; [discriminate | auto].
    + intros H k [<-|Hin]; [assumption|]. now apply IH.
    + intros H. apply IH. auto.
Qed.

Lemma scan_order_complete (k : kind) : In k scan_order.
Proof. destruct k; simpl; tauto. Qed.

(** What the replay loop makes of a line the scan has classified. *)
Lemma replay_of_scan line k m :
  first_match scan_order line = Some (k, m) ->
  first_match replay_order line
  = if kind_in k replay_order then Some (k, m) else None.
Proof.
  intros H. apply first_match_some in H as [_ Hm].
  unfold kind_in. destruct (in_dec kind_eq_dec k replay_order) as [Hin|Hout].
  - now apply first_match_found.
  - apply first_match_none. intros k' Hin.
    destruct (re_match (pat k') line) eqn:E; [|reflexivity].
    assert (k' = k) by (eapply ClassifierFacts.match_unique; eauto).
    subst; contradiction.
Qed.

Lemma replay_of_unmatched line :
  first_match scan_order line = None -> first_match replay_order line = None.
Proof.
  intros H. apply first_match_none. intros k _.
  apply (proj1 (first_match_none _ _) H), scan_order_complete.
Qed.

(** ** Facts about [to_delete] and the removal of lines *)

Lemma existsb_eqb_in (x : string) (l : list string) :
  existsb (String.eqb x) l = true <-> In x l.
Proof.
  rewrite existsb_exists. split.
  - intros (y & Hy & E). apply String.eqb_eq in E. now subst.
  - intros H. exists x. split; [assumption | apply String.eqb_refl].
Qed.

Lemma set_add_in x y s : In y (set_add x s) <-> y = x \/ In y s.
Proof.
  unfold set_add. destruct (existsb (String.eqb x) s) eqn:E.
  - apply existsb_eqb_in in E. split; [auto | intros [->|]; auto].
  - rewrite in_app_iff. simpl. intuition.
Qed.

Lemma set_add_nodup x s : NoDup s -> NoDup (set_add x s).
Proof.
  unfold set_add. intros H. destruct (existsb (String.eqb x) s) eqn:E; auto.
  assert (~ In x s) by (rewrite <- existsb_eqb_in; congruence).
  apply NoDup_app; auto.
  - constructor; [simpl; tauto | constructor].
  - intros y Hy [<-|[]]. contradiction.
Qed.

Lemma list_remove_in x l :
  In x l ->
  exists r, list_remove x l = Some r
            /\ S (List.length r) = List.length l
            /\ (forall y, y <> x -> In y l -> In y r)
            /\ (forall y, In y r -> In y l).
Proof.
  induction l as [|y l IH]; simpl; [tauto|]. intros Hin.
  destruct (String.eqb y x) eqn:E.
  - exists l. repeat split; auto. intros z Hz [<-|]; auto.
    apply String.eqb_eq in E. congruence.
  - apply String.eqb_neq in E. destruct Hin as [->|Hin]; [congruence|].
    destruct (IH Hin) as (r & -> & Hl & Hk & Hs).
    exists (y :: r). simpl. repeat split; auto.
    + intros z Hz [<-|Hz']; auto.
    + intros z [<-|Hz]; auto.
Qed.

(** Removing the distinct lines of a set of lines of the list never
    raises, and shortens the list by the size of the set. *)
Lemma remove_each_in (td : list string) : forall lines,
  NoDup td -> incl td lines ->
  exists r, remove_each td lines = Some r
            /\ List.length r + List.length td = List.length lines
            /\ (forall y, ~ In y td -> In y lines -> In y r)
            /\ (forall y, In y r -> In y lines).
Proof.
  induction td as [|x td IH]; intros lines Hnd Hincl; simpl.
  - exists lines. repeat split; auto.
  - inversion Hnd as [|? ? Hx Hnd']; subst.
    destruct (list_remove_in x lines) as (r & -> & Hl & Hk & Hs).
    { apply Hincl. now left. }
    destruct (IH r Hnd') as (r' & -> & Hl' & Hk' & Hs').
    { intros y Hy. apply Hk; [congruence | apply Hincl; now right]. }
    exists r'. split; [reflexivity|]. split; [lia|]. split; [|auto].
    intros y Hy Hin. apply Hk'; [tauto|]. apply Hk; [|assumption].
    intros ->. apply Hy. now left.
Qed.

(** [to_delete] is a set, and Python iterates over it in an order of its
    own: the lines removed being distinct, the order does not matter. *)
Lemma list_remove_comm x y : forall l,
  match list_remove x l with Some r => list_remove y r | None => None end
  = match list_remove y l with Some r => list_remove x r | None => None end.
Proof.
  destruct (string_dec x y) as [->|Hxy]; [reflexivity|].
  induction l as [|z l IH]; [reflexivity|]. cbn [list_remove].
  destruct (String.eqb z x) eqn:Ex; destruct (String.eqb z y) eqn:Ey.
  - apply String.eqb_eq in Ex, Ey. congruence.
  - destruct (list_remove y l); [|reflexivity].
    cbn [list_remove]. now rewrite Ex.
  - destruct (list_remove x l); [|reflexivity].
    cbn [list_remove]. now rewrite Ey.
  - destruct (list_remove x l) as [rx|] eqn:Hx;
      destruct (list_remove y l) as [ry|] eqn:Hy;
      cbn [list_remove]; rewrite ?Ex, ?Ey.
    + now rewrite IH.
    + now rewrite IH.
    + now rewrite <- IH.
    + reflexivity.
Qed.

Lemma remove_each_order (td td' : list string) :
  Permutation td td' ->
  forall lines, remove_each td lines = remove_each td' lines.
Proof.
  induction 1 as [|x td td' _ IH|x y td|td td' td'' _ IH1 _ IH2];
    intros lines; cbn [remove_each].
  - reflexivity.
  - destruct (list_remove x lines); [apply IH | reflexivity].
  - pose proof (list_remove_comm y x lines) as C.
    destruct (list_remove y lines) as [ry|];
      destruct (list_remove x lines) as [rx|].
    + now rewrite C.
    + now rewrite C.
    + now rewrite <- C.
    + reflexivity.
  - now rewrite IH1.
Qed.

(** ** The scan and one iteration of the loop *)

Section Facts.

Context {State : Type}.
Variable invoke : call -> State -> bool * State.

(** *** The scan *)

Lemma scan_line_unmatched (v : scan_vars State) (line : string) :
  first_match scan_order line = None ->
  scan_line invoke v line
  = mkScan (matches v) (replay_lines v) (scan_state v)
      (printed v ++ [skipping line]).
Proof.
  intros H. unfold scan_line. rewrite H. f_equal. lia.
Qed.

Lemma scan_line_matched (v : scan_vars State) (line : string) k m :
  first_match scan_order line = Some (k, m) ->
  scan_line invoke v line
  = mkScan (matches v + 1)
      (if tested k && negb (fst (invoke (call_of k m) (scan_state v)))
       then replay_lines v ++ [line] else replay_lines v)
      (snd (invoke (call_of k m) (scan_state v)))
      (printed v).
Proof.
  intros H. unfold scan_line. rewrite H.
  destruct (invoke (call_of k m) (scan_state v)) as [ok s']. simpl.
  destruct (tested k && negb ok); reflexivity.
Qed.

Lemma scan_from_app v log1 log2 :
  scan_from invoke v (log1 ++ log2) = scan_from invoke (scan_from invoke v log1) log2.
Proof. apply fold_left_app. Qed.

Lemma scan_from_cons v line log :
  scan_from invoke v (line :: log) = scan_from invoke (scan_line invoke v line) log.
Proof. reflexivity. Qed.

Lemma scan_line_cases line :
  (first_match scan_order line = None /\ unmatched line = true)
  \/ (exists k m, first_match scan_order line = Some (k, m)
                  /\ unmatched line = false).
Proof.
  unfold unmatched.
  destruct (first_match scan_order line) as [[k m]|]; eauto.
Qed.

(** [matches] counts the lines that match some pattern. *)
Lemma scan_from_matches log : forall v,
  matches (scan_from invoke v log)
  = (matches v + Z.of_nat (List.length (filter matched log)))%Z.
Proof.
  induction log as [|line log IH]; intros v.
  - simpl. lia.
  - rewrite scan_from_cons, IH. cbn [filter]. unfold matched at 2.
    destruct (scan_line_cases line) as [[H ->]|(k & m & H & ->)].
    + rewrite (scan_line_unmatched _ _ H). simpl. lia.
    + rewrite (scan_line_matched _ _ _ _ H). cbn [matches negb List.length].
      lia.
Qed.

(** What the scan prints: one message per line that matches no pattern. *)
Lemma scan_from_printed log : forall v,
  printed (scan_from invoke v log) = printed v ++ map skipping (filter unmatched log).
Proof.
  induction log as [|line log IH]; intros v.
  - simpl. now rewrite app_nil_r.
  - rewrite scan_from_cons, IH. cbn [filter].
    destruct (scan_line_cases line) as [[H ->]|(k & m & H & ->)].
    + rewrite (scan_line_unmatched _ _ H). simpl. now rewrite <- app_assoc.
    + rewrite (scan_line_matched _ _ _ _ H). reflexivity.
Qed.

(** A line that the scan defers stays deferred until the scan ends. *)
Lemma scan_from_keeps log : forall v line,
  In line (replay_lines v) -> In line (replay_lines (scan_from invoke v log)).
Proof.
  induction log as [|l log IH]; intros v line Hin; [assumption|].
  rewrite scan_from_cons. apply IH.
  destruct (scan_line_cases l) as [[H _]|(k & m & H & _)].
  - now rewrite (scan_line_unmatched _ _ H).
  - rewrite (scan_line_matched _ _ _ _ H). cbn [replay_lines].
    destruct (tested k && negb _); [apply in_or_app|]; auto.
Qed.

(** The scan only defers lines of the log that match a pattern whose call
    it tests. *)
Lemma scan_from_deferred log : forall v line,
  In line (replay_lines (scan_from invoke v log)) ->
  In line (replay_lines v)
  \/ (In line log
      /\ exists k m, first_match scan_order line = Some (k, m)
                     /\ tested k = true).
Proof.
  induction log as [|l log IH]; intros v line Hin; [now left|].
  rewrite scan_from_cons in Hin. apply IH in Hin as [Hin|(Hin & Hk)].
  - destruct (scan_line_cases l) as [[H _]|(k & m & H & _)].
    + rewrite (scan_line_unmatched _ _ H) in Hin. now left.
    + rewrite (scan_line_matched _ _ _ _ H) in Hin. cbn [replay_lines] in Hin.
      destruct (tested k) eqn:T; [|now left].
      destruct (negb _); [|now left]. cbn [andb] in Hin.
      apply in_app_or in Hin as [Hin|[<-|[]]]; [now left|].
      right. split; [now left | eauto].
  - right. split; [now right | assumption].
Qed.

Lemma scan_from_same log : forall v v',
  same_vars v v' -> same_vars (scan_from invoke v log) (scan_from invoke v' log).
Proof.
  induction log as [|l log IH]; intros v v' Hs; [assumption|].
  rewrite !scan_from_cons. apply IH.
  destruct Hs as (Hm & Hr & Hst). unfold same_vars.
  destruct (scan_line_cases l) as [[H _]|(k & m & H & _)].
  - rewrite !(scan_line_unmatched _ _ H). simpl. auto.
  - rewrite !(scan_line_matched _ _ _ _ H). simpl.
    rewrite Hm, Hr, Hst. auto.
Qed.

(** *** One iteration of the replay loop *)

Lemma replay_line_cases v line :
  (first_match replay_order line = None /\ replay_line invoke v line = v)
  \/ (exists k m, first_match replay_order line = Some (k, m)
        /\ replay_line invoke v line
           = (snd (invoke (call_of k m) (fst v)),
              if fst (invoke (call_of k m) (fst v))
              then set_add line (snd v) else snd v)).
Proof.
  unfold replay_line.
  destruct (first_match replay_order line) as [[k m]|]; [right|now left].
  exists k, m. split; [reflexivity|].
  now destruct (invoke (call_of k m) (fst v)).
Qed.

(** [to_delete] holds distinct lines, each a line of [replay_lines] that a
    pattern of the loop matches. *)
Lemma replay_fold_inv lines : forall s td,
  NoDup td ->
  let r := fold_left (replay_line invoke) lines (s, td) in
  NoDup (snd r)
  /\ forall x, In x (snd r) ->
       In x td \/ (In x lines /\ first_match replay_order x <> None).
Proof.
  induction lines as [|l lines IH]; intros s td Hnd; cbv zeta;
    cbn [fold_left snd].
  - auto.
  - destruct (replay_line_cases (s, td) l) as [[H ->]|(k & m & H & ->)].
    + destruct (IH s td Hnd) as [N I]. split; [assumption|].
      intros x Hx. destruct (I x Hx) as [|[]]; [now left|].
      right. split; [now right | assumption].
    + cbn [fst snd].
      destruct (IH (snd (invoke (call_of k m) s))
                  (if fst (invoke (call_of k m) s) then set_add l td else td))
        as [N I].
      { destruct (fst _); [now apply set_add_nodup | assumption]. }
      split; [assumption|]. intros x Hx.
      destruct (I x Hx) as [Hin|[]].
      2:{ right. split; [now right | assumption]. }
      destruct (fst _); [|now left].
      apply set_add_in in Hin as [->|]; [|now left].
      right. split; [now left | congruence].
Qed.

Lemma replay_pass_sound s lines :
  NoDup (snd (replay_pass invoke s lines))
  /\ incl (snd (replay_pass invoke s lines)) lines
  /\ forall x, In x (snd (replay_pass invoke s lines)) ->
       first_match replay_order x <> None.
Proof.
  destruct (replay_fold_inv lines s [] (NoDup_nil _)) as [N I].
  split; [exact N|]. split.
  - intros x Hx. destruct (I x Hx) as [[]|[]]; assumption.
  - intros x Hx. destruct (I x Hx) as [[]|[]]; assumption.
Qed.

End Facts.

(** ** The replay loop *)

Section Loop.

Context {State : Type}.
Variable invoke : call -> State -> bool * State.

Lemma replay_loop_nil fuel count (s : State) out :
  replay_loop invoke fuel count s [] out
  = mkResult (Returned count) s out [] [].
Proof. destruct fuel; reflexivity. Qed.

Lemma replay_loop_cons fuel count (s : State) l lines out :
  replay_loop invoke (S fuel) count s (l :: lines) out
  = let (s', to_delete) := replay_pass invoke s (l :: lines) in
    match to_delete with
    | [] =>
        mkResult AssertionError s' (out ++ [no_progress]) (l :: lines)
          [mkPass (l :: lines) [] (l :: lines)]
    | _ :: _ =>
        match remove_each to_delete (l :: lines) with
        | None => mkResult ValueError s' out (l :: lines) []
        | Some lines' =>
            after_pass (mkPass (l :: lines) to_delete lines')
              (replay_loop invoke fuel count s' lines' out)
        end
    end.
Proof. reflexivity. Qed.

(** An iteration that resolves something removes every line it resolved,
    without raising, and leaves a shorter list. *)
Lemma replay_pass_removes (s : State) lines x td s' :
  replay_pass invoke s lines = (s', x :: td) ->
  exists lines',
    remove_each (x :: td) lines = Some lines'
    /\ List.length lines' < List.length lines
    /\ (forall y, In y lines' -> In y lines)
    /\ (forall y, first_match replay_order y = None ->
                  In y lines -> In y lines').
Proof.
  intros E.
  destruct (replay_pass_sound invoke s lines) as (N & I & M).
  rewrite E in N, I, M. cbn [snd] in N, I, M.
  destruct (remove_each_in _ _ N I) as (r & Hr & Hl & Hk & Hs).
  exists r. split; [assumption|]. split; [simpl in Hl; lia|].
  split; [assumption|].
  intros y Hy Hin. apply Hk; [|assumption]. intros Hd.
  now apply M in Hd.
Qed.

(** With a bound that is at least the number of deferred lines, the loop
    ends in one of two ways: [replay_lines] is empty and [matches] is
    returned, every iteration having resolved and removed lines; or the
    last iteration resolved nothing, and the assertion fails. *)
Lemma replay_loop_spec : forall fuel count (s : State) lines out,
  List.length lines <= fuel ->
  let r := replay_loop invoke fuel count s lines out in
  linked lines (passes r) (deferred r)
  /\ ((ending r = Returned count /\ deferred r = [] /\ stdout r = out
       /\ Forall progress (passes r))
      \/ (ending r = AssertionError /\ deferred r <> []
          /\ stdout r = out ++ [no_progress]
          /\ exists ps p, passes r = ps ++ [p] /\ Forall progress ps
                          /\ stalled p /\ before p = deferred r)).
Proof.
  induction fuel as [|fuel IH]; intros count s lines out Hlen; cbv zeta.
  - destruct lines; [|simpl in Hlen; lia]. rewrite replay_loop_nil.
    simpl. split; [reflexivity|]. left. auto.
  - destruct lines as [|l lines].
    { rewrite replay_loop_nil. simpl. split; [reflexivity|]. left. auto. }
    rewrite replay_loop_cons.
    destruct (replay_pass invoke s (l :: lines)) as [s' [|x td]] eqn:E.
    + cbn [passes deferred ending stdout linked before after].
      split; [repeat split; discriminate|]. right.
      repeat split; try discriminate.
      exists [], (mkPass (l :: lines) [] (l :: lines)).
      repeat split; constructor.
    + destruct (replay_pass_removes _ _ _ _ _ E) as (r' & Hr & Hl & _).
      rewrite Hr.
      assert (Hfuel : List.length r' <= fuel) by (simpl in Hlen, Hl; lia).
      specialize (IH count s' r' out Hfuel). cbv zeta in IH.
      destruct IH as [L C]. unfold after_pass.
      cbn [passes deferred ending stdout linked before after].
      split; [repeat split; [discriminate | assumption]|].
      assert (P : progress (mkPass (l :: lines) (x :: td) r')).
      { repeat split; [discriminate | assumption | assumption]. }
      destruct C as [(He & Hd & Ho & Hp)|(He & Hd & Ho & ps & p & Hps & Hp)];
        [left | right]; repeat split; auto.
      exists (mkPass (l :: lines) (x :: td) r' :: ps), p.
      rewrite Hps. destruct Hp as (Hp & Hst & Hb).
      repeat split; auto; apply Hst.
Qed.

(** The bound has no influence once it is large enough. *)
Lemma replay_loop_fuel : forall fuel fuel' count (s : State) lines out,
  List.length lines <= fuel -> List.length lines <= fuel' ->
  replay_loop invoke fuel count s lines out
  = replay_loop invoke fuel' count s lines out.
Proof.
  induction fuel as [|fuel IH]; intros fuel' count s lines out H H'.
  - destruct lines; [|simpl in H; lia]. now rewrite !replay_loop_nil.
  - destruct lines as [|l lines]; [now rewrite !replay_loop_nil|].
    destruct fuel' as [|fuel']; [simpl in H'; lia|].
    rewrite !replay_loop_cons.
    destruct (replay_pass invoke s (l :: lines)) as [s' [|x td]] eqn:E;
      [reflexivity|].
    destruct (replay_pass_removes _ _ _ _ _ E) as (r' & -> & Hl & _).
    f_equal. apply IH; simpl in H, H', Hl; lia.
Qed.

(** What was printed before the loop only shows in [stdout]. *)
Lemma replay_loop_out : forall fuel count (s : State) lines out out',
  let r := replay_loop invoke fuel count s lines out in
  let r' := replay_loop invoke fuel count s lines out' in
  ending r = ending r' /\ final_state r = final_state r'
  /\ deferred r = deferred r' /\ passes r = passes r'.
Proof.
  induction fuel as [|fuel IH]; intros count s lines out out'; cbv zeta.
  - destruct lines; simpl; auto.
  - destruct lines as [|l lines]; [rewrite !replay_loop_nil; simpl; auto|].
    rewrite !replay_loop_cons.
    destruct (replay_pass invoke s (l :: lines)) as [s' [|x td]];
      [simpl; auto|].
    destruct (remove_each (x :: td) (l :: lines)) as [r'|]; [|simpl; auto].
    destruct (IH count s' r' out out') as (He & Hf & Hd & Hp).
    unfold after_pass. cbn [ending final_state deferred passes].
    rewrite Hp. auto.
Qed.

End Loop.

(** ** Auxiliary facts on lists of iterations *)

Lemma list_remove_incl x : forall l r,
  list_remove x l = Some r -> incl r l.
Proof.
  induction l as [|y l IH]; intros r H; simpl in H; [discriminate|].
  destruct (String.eqb y x).
  - inversion H; subst. apply incl_tl, incl_refl.
  - destruct (list_remove x l) as [r0|]; [|discriminate].
    inversion H; subst. intros z [<-|Hz]; [now left|].
    right. now apply (IH r0).
Qed.

Lemma remove_each_incl : forall td l r,
  remove_each td l = Some r -> incl r l.
Proof.
  induction td as [|x td IH]; intros l r H; simpl in H.
  - inversion H. apply incl_refl.
  - destruct (list_remove x l) as [r0|] eqn:E; [|discriminate].
    eapply incl_tran; [eapply IH; eassumption|].
    eapply list_remove_incl; eassumption.
Qed.

Lemma progress_incl p : progress p -> incl (after p) (before p).
Proof. intros (_ & H & _). eapply remove_each_incl; eassumption. Qed.

Lemma stalled_incl p : stalled p -> incl (after p) (before p).
Proof. intros (_ & ->). apply incl_refl. Qed.

(** The deferred lines of an iteration are among those the loop started
    with. *)
Lemma linked_within : forall ps start final,
  linked start ps final ->
  Forall (fun p => incl (after p) (before p)) ps ->
  (forall p, In p ps -> incl (before p) start) /\ incl final start.
Proof.
  induction ps as [|p ps IH]; intros start final L F; simpl in L.
  - subst. split; [intros p []| apply incl_refl].
  - destruct L as (Hb & _ & L). inversion F as [|? ? Hp F']; subst.
    destruct (IH _ _ L F') as [I1 I2]. split.
    + intros q [<-|Hq]; [apply incl_refl|].
      eapply incl_tran; [apply I1; assumption | assumption].
    + eapply incl_tran; eassumption.
Qed.

Lemma linked_consecutive : forall ps start final p q qs,
  linked start (ps ++ p :: q :: qs) final -> before q = after p.
Proof.
  induction ps as [|x ps IH]; intros start final p q qs L; simpl in L.
  - tauto.
  - destruct L as (_ & _ & L). eapply IH; eassumption.
Qed.

Lemma linked_nonempty : forall ps start final p,
  linked start ps final -> In p ps -> before p <> [].
Proof.
  induction ps as [|x ps IH]; intros start final p L Hin; simpl in L.
  - destruct Hin.
  - destruct L as (Hb & Hne & L). destruct Hin as [<-|Hin].
    + congruence.
    + eapply IH; eassumption.
Qed.

Lemma split_last {A} (ps qs ps0 : list A) (p p0 : A) :
  ps ++ p :: qs = ps0 ++ [p0] -> (qs = [] /\ p = p0) \/ In p ps0.
Proof.
  destruct qs as [|q qs] using rev_ind; intros H.
  - apply app_inj_tail in H as [_ ->]. now left.
  - right. change (ps ++ p :: qs ++ [q]) with (ps ++ (p :: qs) ++ [q]) in H.
    rewrite app_assoc in H. apply app_inj_tail in H as [<- _].
    apply in_or_app. right. now left.
Qed.

(** ** The properties of [parse_log_file] *)

Section Properties.

Context {State : Type}.
Variable invoke : call -> State -> bool * State.

(** The specification of the loop, for the run of [parse_log_file]. *)
Lemma run_spec (log : list string) (s : State) :
  let v := scan invoke log s in
  let r := parse_log_file invoke log s in
  linked (replay_lines v) (passes r) (deferred r)
  /\ ((ending r = Returned (matches v) /\ deferred r = []
       /\ stdout r = printed v /\ Forall progress (passes r))
      \/ (ending r = AssertionError /\ deferred r <> []
          /\ stdout r = printed v ++ [no_progress]
          /\ exists ps p, passes r = ps ++ [p] /\ Forall progress ps
                          /\ stalled p /\ before p = deferred r)).
Proof. apply replay_loop_spec. apply Nat.le_refl. Qed.

Lemma run_passes_shrink (log : list string) (s : State) :
  Forall (fun p => incl (after p) (before p))
    (passes (parse_log_file invoke log s)).
Proof.
  destruct (run_spec log s) as [_ [(_ & _ & _ & F)|(_ & _ & _ & C)]].
  - eapply Forall_impl; [|exact F]. apply progress_incl.
  - destruct C as (ps & p & -> & F & St & _). apply Forall_app. split.
    + eapply Forall_impl; [|exact F]. apply progress_incl.
    + constructor; [now apply stalled_incl | constructor].
Qed.

(** Every line that is ever deferred was deferred by the scan. *)
Lemma run_deferred_within (log : list string) (s : State) p :
  In p (passes (parse_log_file invoke log s)) ->
  incl (before p) (replay_lines (scan invoke log s)).
Proof.
  destruct (run_spec log s) as [L _].
  apply (linked_within _ _ _ L (run_passes_shrink log s)).
Qed.

End Properties.

(** A deferred line that no pattern of the loop matches stays deferred,
    and the run stalls. *)
Section Unreplayed.

Context {State : Type}.
Variable invoke : call -> State -> bool * State.

Lemma replay_loop_keeps line : forall fuel count (s : State) lines out,
  In line lines -> first_match replay_order line = None ->
  In line (deferred (replay_loop invoke fuel count s lines out)).
Proof.
  induction fuel as [|fuel IH]; intros count s lines out Hin Hm;
    (destruct lines as [|l lines]; [destruct Hin|]).
  - exact Hin.
  - rewrite replay_loop_cons.
    destruct (replay_pass invoke s (l :: lines)) as [s' [|x td]] eqn:E;
      [exact Hin|].
    destruct (replay_pass_removes _ _ _ _ _ _ E) as (r' & -> & _ & _ & K).
    unfold after_pass. cbn [deferred]. apply IH; auto.
Qed.

Lemma unreplayed_line_stalls (log : list string) (s : State) line :
  In line (replay_lines (scan invoke log s)) ->
  first_match replay_order line = None ->
  ending (parse_log_file invoke log s) = AssertionError.
Proof.
  intros Hin Hm.
  pose proof (replay_loop_keeps line
                (List.length (replay_lines (scan invoke log s)))
                (matches (scan invoke log s)) (scan_state (scan invoke log s))
                _ (printed (scan invoke log s)) Hin Hm) as K.
  destruct (run_spec invoke log s) as [_ [(_ & Hd & _)|(He & _)]];
    [|assumption].
  unfold parse_log_file in Hd. rewrite Hd in K. destruct K.
Qed.

End Unreplayed.

(** ** Recording the calls does not change the run *)

Section Recording.

Context {State : Type}.
Variable invoke : call -> State -> bool * State.

Lemma recording_call c (st : State * list (call * bool)) :
  fst (recording invoke c st) = fst (invoke c (fst st))
  /\ fst (snd (recording invoke c st)) = snd (invoke c (fst st))
  /\ snd (snd (recording invoke c st))
     = snd st ++ [(c, fst (invoke c (fst st)))].
Proof. unfold recording. destruct (invoke c (fst st)); auto. Qed.

Lemma recording_scan_line vt line :
  erase_scan (scan_line (recording invoke) vt line)
  = scan_line invoke (erase_scan vt) line.
Proof.
  unfold scan_line, erase_scan. cbn [matches replay_lines scan_state printed].
  destruct (first_match scan_order line) as [[k m]|]; [|reflexivity].
  destruct (recording_call (call_of k m) (scan_state vt)) as (H1 & H2 & _).
  destruct (recording invoke (call_of k m) (scan_state vt)) as [ok st'].
  destruct (invoke (call_of k m) (fst (scan_state vt))) as [ok' s'].
  cbn [fst snd] in H1, H2. subst ok' s'.
  destruct (tested k && negb ok); reflexivity.
Qed.

Lemma recording_scan_from log : forall vt,
  erase_scan (scan_from (recording invoke) vt log)
  = scan_from invoke (erase_scan vt) log.
Proof.
  induction log as [|l log IH]; intros vt; [reflexivity|].
  cbn [scan_from fold_left]. unfold scan_from in IH.
  now rewrite IH, recording_scan_line.
Qed.

Lemma recording_replay_line (v : (State * list (call * bool)) * list string)
    line :
  (fst (fst (replay_line (recording invoke) v line)),
   snd (replay_line (recording invoke) v line))
  = replay_line invoke (fst (fst v), snd v) line.
Proof.
  unfold replay_line. cbn [fst snd].
  destruct (first_match replay_order line) as [[k m]|]; [|reflexivity].
  destruct (recording_call (call_of k m) (fst v)) as (H1 & H2 & _).
  destruct (recording invoke (call_of k m) (fst v)) as [ok st'].
  destruct (invoke (call_of k m) (fst (fst v))) as [ok' s'].
  cbn [fst snd] in H1, H2 |- *. now subst ok' s'.
Qed.

Lemma recording_fold lines :
  forall (v : (State * list (call * bool)) * list string),
  (fst (fst (fold_left (replay_line (recording invoke)) lines v)),
   snd (fold_left (replay_line (recording invoke)) lines v))
  = fold_left (replay_line invoke) lines (fst (fst v), snd v).
Proof.
  induction lines as [|l lines IH]; intros v; [reflexivity|].
  cbn [fold_left]. now rewrite IH, recording_replay_line.
Qed.

Lemma recording_replay_loop : forall fuel count st lines out,
  erase_result (replay_loop (recording invoke) fuel count st lines out)
  = replay_loop invoke fuel count (fst st) lines out.
Proof.
  induction fuel as [|fuel IH]; intros count st lines out.
  - destruct lines; reflexivity.
  - destruct lines as [|l lines]; [reflexivity|].
    rewrite !replay_loop_cons. unfold replay_pass.
    pose proof (recording_fold (l :: lines) (st, [])) as F.
    cbn [fst snd] in F.
    destruct (fold_left (replay_line (recording invoke)) (l :: lines) (st, []))
      as [st' td].
    rewrite <- F. cbn [fst snd].
    destruct td as [|x td]; [reflexivity|].
    destruct (remove_each (x :: td) (l :: lines)) as [r'|]; [|reflexivity].
    rewrite <- IH. reflexivity.
Qed.

(** The run on the recording state object is the run on the state object,
    with the record of the calls beside the state. *)
Lemma recording_run (log : list string) (s : State) t :
  erase_result (parse_log_file (recording invoke) log (s, t))
  = parse_log_file invoke log s.
Proof.
  unfold parse_log_file.
  pose proof (recording_scan_from log (mkScan 0 [] (s, t) [])) as E.
  unfold scan. unfold erase_scan in E. cbn [matches replay_lines scan_state
    printed fst] in E. rewrite <- E.
  cbn [matches replay_lines scan_state printed].
  apply recording_replay_loop.
Qed.

End Recording.

(** ** The claims *)

(** C8. The patterns are mutually exclusive: on every line at most one
    of them matches, so trying them in any other order classifies the line
    to the same kind, with the same groups. *)
Theorem patterns_mutually_exclusive (line : string) :
  (forall k1 k2 g1 g2,
      re_match (pat k1) line = Some g1 -> re_match (pat k2) line = Some g2 ->
      k1 = k2)
  /\ (forall ks, Permutation ks scan_order ->
                 first_match ks line = first_match scan_order line).
Proof.
  split.
  - intros k1 k2 g1 g2. apply ClassifierFacts.match_unique.
  - intros ks P. destruct (first_match scan_order line) as [[k m]|] eqn:E.
    + apply first_match_some in E as [Hin Hm].
      apply first_match_found; [|assumption].
      eapply Permutation_in; [apply Permutation_sym|]; eassumption.
    + apply first_match_none. intros k _.
      apply (proj1 (first_match_none _ _) E), scan_order_complete.
Qed.

Lemma patterns_mutually_exclusive_witness :
  re_match (pat index_subspace) (Mock.line "Index Subspace 5 6 0")
  = Some [("node", "0"); ("thread", "7f3a"); ("pid", "5"); ("uid", "6");
          ("color", "0")]
  /\ first_match (rev scan_order) (Mock.line "Index Subspace 5 6 0")
     = first_match scan_order (Mock.line "Index Subspace 5 6 0").
Proof.
  split; [vm_compute; reflexivity|].
  apply (proj2 (patterns_mutually_exclusive _)).
  apply Permutation_sym, Permutation_rev.
Defined.

Section Claims.

Context {State : Type}.
Variable invoke : call -> State -> bool * State.

(** C10. When [parse_log_file] returns, it returns the number of lines of
    the log that match some pattern: the value [matches] has at the end of
    the scan, deferred lines included, which the replay loop leaves as it
    is. *)
Theorem returned_count (log : list string) (s : State) (m : Z) :
  ending (parse_log_file invoke log s) = Returned m ->
  m = Z.of_nat (List.length (filter matched log))
  /\ m = matches (scan invoke log s).
Proof.
  intros H.
  destruct (run_spec invoke log s) as [_ [(He & _)|(He & _)]];
    rewrite He in H; [|discriminate].
  inversion H; subst m. split; [|reflexivity].
  unfold scan. now rewrite scan_from_matches.
Qed.

(** A line that matches no pattern changes nothing but what is printed. *)
Lemma skip_unmatched (log1 log2 : list string) (line : string) (s : State) :
  first_match scan_order line = None ->
  let r := parse_log_file invoke (log1 ++ line :: log2) s in
  let r' := parse_log_file invoke (log1 ++ log2) s in
  ending r = ending r' /\ final_state r = final_state r'
  /\ deferred r = deferred r' /\ passes r = passes r'.
Proof.
  intros H. cbv zeta. unfold parse_log_file, scan.
  rewrite !scan_from_app, scan_from_cons.
  set (v := scan_from invoke _ log1).
  assert (Hs : same_vars (scan_from invoke (scan_line invoke v line) log2)
                 (scan_from invoke v log2)).
  { apply scan_from_same. rewrite (scan_line_unmatched _ _ _ H).
    repeat split. }
  destruct Hs as (-> & -> & ->). apply replay_loop_out.
Qed.

End Claims.

(** C9. A line that matches no pattern does not stop the run: the scan
    goes on with the next line, having left [matches], [replay_lines] and
    the state object as they were; the run ends as it does without the
    line, with the same returned count and the same state; on a state
    object that records its calls, the same calls are recorded; and the
    line is at no time among the deferred lines. *)
Theorem unmatched_line_skipped {State : Type}
    (invoke : call -> State -> bool * State)
    (log1 log2 : list string) (line : string) (s : State) :
  first_match scan_order line = None ->
  let r := parse_log_file invoke (log1 ++ line :: log2) s in
  let r' := parse_log_file invoke (log1 ++ log2) s in
  let t := parse_log_file (recording invoke) (log1 ++ line :: log2) (s, []) in
  let t' := parse_log_file (recording invoke) (log1 ++ log2) (s, []) in
  (forall v, scan_line invoke v line
             = mkScan (matches v) (replay_lines v) (scan_state v)
                 (printed v ++ [skipping line]))
  /\ ending r = ending r' /\ final_state r = final_state r'
  /\ snd (final_state t) = snd (final_state t')
  /\ ~ In line (replay_lines (scan invoke (log1 ++ line :: log2) s))
  /\ (forall p, In p (passes r) -> ~ In line (before p))
  /\ ~ In line (deferred r).
Proof.
  intros H. cbv zeta.
  assert (Hout : ~ In line
                   (replay_lines (scan invoke (log1 ++ line :: log2) s))).
  { intros Hin. apply scan_from_deferred in Hin as [[]|(_ & k & m & Hk & _)].
    congruence. }
  split; [intros v; now apply scan_line_unmatched|].
  destruct (skip_unmatched invoke log1 log2 line s H) as (He & Hf & _).
  destruct (skip_unmatched (recording invoke) log1 log2 line (s, []) H)
    as (_ & Hf' & _).
  repeat split; auto.
  - now rewrite Hf'.
  - intros p Hp Hin. apply Hout. eapply run_deferred_within; eassumption.
  - intros Hin. apply Hout.
    destruct (run_spec invoke (log1 ++ line :: log2) s) as [L _].
    eapply (proj2 (linked_within _ _ _ L (run_passes_shrink _ _ _)));
      eassumption.
Qed.

(** C5. The run raises exactly when some iteration of the loop, on a list
    of deferred lines that is not empty, resolves nothing; such an iteration
    is the last one; and the run returns exactly when the list of deferred
    lines has become empty.  No run ends otherwise. *)
Theorem abort_iff_no_progress {State : Type}
    (invoke : call -> State -> bool * State) (log : list string) (s : State) :
  let r := parse_log_file invoke log s in
  (ending r = AssertionError
   <-> exists p, In p (passes r) /\ before p <> [] /\ resolved p = [])
  /\ (forall ps p qs, passes r = ps ++ p :: qs -> resolved p = [] ->
        qs = [] /\ ending r = AssertionError /\ deferred r = before p)
  /\ ((exists m, ending r = Returned m) <-> deferred r = [])
  /\ (ending r = AssertionError \/ exists m, ending r = Returned m).
Proof.
  cbv zeta. destruct (run_spec invoke log s) as [L C].
  destruct C as [(He & Hd & _ & F)|(He & Hd & _ & ps0 & p0 & Hps & F & St & Hb)].
  - (* returned *)
    assert (N : forall p, In p (passes (parse_log_file invoke log s)) ->
                          resolved p <> []).
    { intros p Hp. rewrite Forall_forall in F. apply (F p Hp). }
    repeat split.
    + rewrite He; discriminate.
    + intros (p & Hp & _ & Hr). now apply N in Hp.
    + exfalso. apply (N p); [rewrite H; apply in_elt | assumption].
    + exfalso. apply (N p); [rewrite H; apply in_elt | assumption].
    + exfalso. apply (N p); [rewrite H; apply in_elt | assumption].
    + intros _. assumption.
    + intros _. eauto.
    + right. eauto.
  - (* raised *)
    assert (N : forall p, In p ps0 -> resolved p <> []).
    { intros p Hp. rewrite Forall_forall in F. apply (F p Hp). }
    assert (Last : forall ps p qs,
               passes (parse_log_file invoke log s) = ps ++ p :: qs ->
               resolved p = [] -> qs = [] /\ p = p0).
    { intros ps p qs H Hr. rewrite Hps in H. symmetry in H.
      destruct (split_last _ _ _ _ _ H) as [|Hin]; [assumption|].
      now apply N in Hin. }
    repeat split.
    + intros _. exists p0. split; [rewrite Hps; apply in_elt|].
      split; [congruence | apply St].
    + intros _. assumption.
    + now apply (Last ps p qs).
    + assumption.
    + destruct (Last ps p qs H H0) as [_ ->]. congruence.
    + intros [m Hm]. congruence.
    + intros Hd'. contradiction.
    + now left.
Qed.

(** C6. Every iteration of the loop either empties the list of deferred
    lines, or leaves it strictly shorter, or resolves nothing, in which case
    the run raises; an iteration that is followed by another one starts from
    a list that is not empty and hands a strictly shorter one to the next.
    So the loop terminates: the run returns or raises, and it is the same
    run under every bound on the number of iterations that is at least the
    number of lines the scan deferred. *)
Theorem replay_terminates {State : Type}
    (invoke : call -> State -> bool * State) (log : list string) (s : State) :
  let v := scan invoke log s in
  let r := parse_log_file invoke log s in
  (ending r = Returned (matches v) \/ ending r = AssertionError)
  /\ Forall (fun p => before p <> []
                      /\ (after p = []
                          \/ List.length (after p) < List.length (before p)
                          \/ (resolved p = [] /\ ending r = AssertionError)))
       (passes r)
  /\ (forall ps p q qs, passes r = ps ++ p :: q :: qs ->
        before q = after p
        /\ List.length (before q) < List.length (before p))
  /\ (forall fuel, List.length (replay_lines v) <= fuel ->
        replay_loop invoke fuel (matches v) (scan_state v) (replay_lines v)
          (printed v) = r).
Proof.
  cbv zeta. destruct (run_spec invoke log s) as [L C].
  assert (NE : forall p, In p (passes (parse_log_file invoke log s)) ->
                         before p <> []).
  { intros p. apply (linked_nonempty _ _ _ _ L). }
  split; [destruct C as [(He & _)|(He & _)]; auto|].
  split; [|split].
  - apply Forall_forall. intros p Hp. split; [now apply NE|].
    destruct C as [(_ & _ & _ & F)|(He & _ & _ & ps0 & p0 & Hps & F & St & _)].
    + rewrite Forall_forall in F. destruct (F p Hp) as (_ & _ & Hl). auto.
    + rewrite Hps in Hp. apply in_app_or in Hp as [Hp|[<-|[]]].
      * rewrite Forall_forall in F. destruct (F p Hp) as (_ & _ & Hl). auto.
      * right; right. split; [apply St | assumption].
  - intros ps p q qs H. rewrite H in L.
    assert (Hq : before q = after p) by (eapply linked_consecutive; eauto).
    split; [assumption|]. rewrite Hq.
    assert (P : progress p).
    { destruct C as [(_ & _ & _ & F)|(_ & _ & _ & ps0 & p0 & Hps & F & _)].
      - rewrite Forall_forall in F. apply F. rewrite H. apply in_elt.
      - rewrite Forall_forall in F. apply F. rewrite Hps in H.
        symmetry in H.
        destruct (split_last _ _ _ _ _ H) as [[? _]|]; [discriminate|auto]. }
    apply P.
  - intros fuel Hf. unfold parse_log_file.
    apply replay_loop_fuel; [assumption | apply Nat.le_refl].
Qed.

(** ** The claims that the code does not meet *)

(** C4, as stated, fails: when the run stalls on the one index subspace
    whose partition is declared nowhere, the only text printed is the fixed
    message, in which no field of the unresolved record occurs. *)
Lemma stall_output_counterexample :
  ending (parse_log_file Mock.invoke orphan_log []) = AssertionError
  /\ deferred (parse_log_file Mock.invoke orphan_log []) = [subspace_line]
  /\ stdout (parse_log_file Mock.invoke orphan_log []) = [no_progress]
  /\ ~ (forall l,
          In l (deferred (parse_log_file Mock.invoke orphan_log [])) ->
          reported (stdout (parse_log_file Mock.invoke orphan_log [])) l
          = true).
Proof.
  split; [run_parser|]. split; [run_parser|]. split; [run_parser|].
  intros H. specialize (H subspace_line).
  assert (Hin : In subspace_line
                  (deferred (parse_log_file Mock.invoke orphan_log [])))
    by (vm_compute; auto).
  apply H in Hin. vm_compute in Hin. discriminate.
Qed.

(** C4, amended. What a run that stalls prints is one message per line
    that matched no pattern and then the fixed message; nothing else, and so
    no unresolved record.  With a log of one line whose call the scan tests
    and which returns false and changes nothing, the run stalls after one
    iteration, with that line as the list of deferred lines. *)
Theorem stall_output {State : Type} (invoke : call -> State -> bool * State) :
  (forall log s,
      ending (parse_log_file invoke log s) = AssertionError ->
      stdout (parse_log_file invoke log s)
      = map skipping (filter unmatched log) ++ [no_progress]
      /\ deferred (parse_log_file invoke log s) <> [])
  /\ (forall line k m s,
        first_match scan_order line = Some (k, m) -> tested k = true ->
        invoke (call_of k m) s = (false, s) ->
        parse_log_file invoke [line] s
        = mkResult AssertionError s [no_progress] [line]
            [mkPass [line] [] [line]]).
Proof.
  split.
  - intros log s H.
    destruct (run_spec invoke log s) as [_ [(He & _)|(_ & Hd & Ho & _)]].
    + rewrite He in H; discriminate.
    + split; [|assumption]. rewrite Ho. unfold scan.
      now rewrite scan_from_printed.
  - intros line k m s H T Hinv.
    unfold parse_log_file, scan, scan_from. cbn [fold_left].
    rewrite (scan_line_matched _ _ _ _ _ H).
    cbn [scan_state matches replay_lines printed]. rewrite Hinv, T.
    cbn [fst snd negb andb app List.length].
    rewrite replay_loop_cons. unfold replay_pass. cbn [fold_left].
    destruct (replay_line_cases invoke (s, []) line)
      as [[_ ->]|(k' & m' & H' & ->)]; [reflexivity|].
    rewrite (replay_of_scan _ _ _ H) in H'.
    destruct (kind_in k replay_order); [|discriminate].
    inversion H'; subst k' m'. cbn [fst snd]. rewrite Hinv. reflexivity.
Qed.

Lemma stall_output_witness :
  parse_log_file Mock.invoke [subspace_line] []
  = mkResult AssertionError [] [no_progress] [subspace_line]
      [mkPass [subspace_line] [] [subspace_line]].
Proof.
  apply (proj2 (stall_output Mock.invoke) subspace_line index_subspace
           [("node", "0"); ("thread", "7f3a"); ("pid", "5"); ("uid", "6");
            ("color", "0")]);
    vm_compute; reflexivity.
Defined.

Lemma tested_false_iff (k : kind) :
  tested k = false
  <-> In k [utility; memory; top_index; field_space; top_task;
            event_event; implicit_event].
Proof.
  split.
  - destruct k; simpl; intros H; try discriminate; tauto.
  - simpl. intuition (subst; reflexivity).
Qed.

(** A line whose call the scan does not test is never deferred. *)
Lemma untested_not_deferred {State : Type}
    (invoke : call -> State -> bool * State) log s line k m :
  first_match scan_order line = Some (k, m) -> tested k = false ->
  (forall v, scan_line invoke v line
             = mkScan (matches v + 1) (replay_lines v)
                 (snd (invoke (call_of k m) (scan_state v))) (printed v))
  /\ ~ In line (replay_lines (scan invoke log s))
  /\ (forall p, In p (passes (parse_log_file invoke log s)) ->
                ~ In line (before p)).
Proof.
  intros H T.
  assert (Hout : ~ In line (replay_lines (scan invoke log s))).
  { intros Hin.
    apply scan_from_deferred in Hin as [[]|(_ & k' & m' & Hk & T')].
    congruence. }
  split; [|split; [assumption|]].
  - intros v. rewrite (scan_line_matched _ _ _ _ _ H). now rewrite T.
  - intros p Hp Hin. apply Hout. eapply run_deferred_within; eassumption.
Qed.

(** C2, as stated, fails: the first call made for a processor logged
    before its utility processor returns false, and the scan defers the
    line; it is resolved in the loop, by a second call. *)
Lemma processor_deferred_counterexample :
  first_match scan_order processor_line
  = Some (processor, [("node", "0"); ("thread", "7f3a"); ("pid", "7");
                      ("util", "0"); ("kind", "1")])
  /\ replay_lines (scan (recording Mock.invoke) processor_log ([], []))
     = [processor_line]
  /\ snd (final_state (Mock.run processor_log))
     = [(add_processor 7 0 1, false); (add_utility 0, true);
        (add_processor 7 0 1, true)]
  /\ passes (Mock.run processor_log)
     = [mkPass [processor_line] [processor_line] []]
  /\ ~ (forall (State : Type) (invoke : call -> State -> bool * State)
           (log : list string) (s : State) (line : string) (m : groups),
          first_match scan_order line = Some (processor, m) ->
          ~ In line (replay_lines (scan invoke log s))).
Proof.
  split; [run_parser|]. split; [run_parser|]. split; [run_parser|].
  split; [run_parser|].
  intros H.
  apply (H _ Mock.invoke processor_log [] processor_line
           [("node", "0"); ("thread", "7f3a"); ("pid", "7"); ("util", "0");
            ("kind", "1")]).
  - vm_compute; reflexivity.
  - vm_compute. now left.
Qed.

(** C2, amended. The kinds whose call the scan does not test are utility,
    memory, index space, field space, top-level task, event-to-event edge
    and implicit-event edge: a line of one of them is dispatched by the scan,
    whatever its call returns, and is at no time among the deferred lines.
    A processor declaration is not one of them: the scan defers it when
    [add_processor] returns false. *)
Theorem untested_kinds_never_deferred {State : Type}
    (invoke : call -> State -> bool * State) :
  (forall k, tested k = false
             <-> In k [utility; memory; top_index; field_space; top_task;
                       event_event; implicit_event])
  /\ (forall log s line k m,
        first_match scan_order line = Some (k, m) -> tested k = false ->
        (forall v, scan_line invoke v line
                   = mkScan (matches v + 1) (replay_lines v)
                       (snd (invoke (call_of k m) (scan_state v)))
                       (printed v))
        /\ ~ In line (replay_lines (scan invoke log s))
        /\ (forall p, In p (passes (parse_log_file invoke log s)) ->
                      ~ In line (before p)))
  /\ (forall v line m,
        first_match scan_order line = Some (processor, m) ->
        replay_lines (scan_line invoke v line)
        = if fst (invoke (call_of processor m) (scan_state v))
          then replay_lines v else replay_lines v ++ [line]).
Proof.
  split; [exact tested_false_iff|]. split.
  - intros log s line k m. apply untested_not_deferred.
  - intros v line m H. rewrite (scan_line_matched _ _ _ _ _ H).
    cbn [replay_lines tested andb]. now destruct (fst _).
Qed.

Lemma untested_kinds_never_deferred_witness :
  ~ In (Mock.line "Utility 0")
      (replay_lines (scan Mock.invoke processor_log []))
  /\ replay_lines
       (scan_line Mock.invoke (mkScan 0 [] [] []) processor_line)
     = [processor_line].
Proof.
  split.
  - apply (proj1 (proj2 (untested_kinds_never_deferred Mock.invoke))
             processor_log [] (Mock.line "Utility 0") utility
             [("node", "0"); ("thread", "7f3a"); ("pid", "0")]);
      vm_compute; reflexivity.
  - rewrite (proj2 (proj2 (untested_kinds_never_deferred Mock.invoke))
               (mkScan 0 [] [] []) processor_line
               [("node", "0"); ("thread", "7f3a"); ("pid", "7");
                ("util", "0"); ("kind", "1")]);
      vm_compute; reflexivity.
Defined.

(** C3, as stated, fails: the call made for an event-to-event edge
    between events that are not declared returns false; the line is not
    deferred, the loop makes no iteration, and the run returns. *)
Lemma event_edge_counterexample :
  first_match scan_order event_line
  = Some (event_event, [("node", "0"); ("thread", "7f3a"); ("idone", "1");
                        ("genone", "0"); ("idtwo", "2"); ("gentwo", "0")])
  /\ snd (final_state (Mock.run event_log))
     = [(add_event_dependence 1 0 2 0, false)]
  /\ replay_lines (scan (recording Mock.invoke) event_log ([], [])) = []
  /\ passes (Mock.run event_log) = []
  /\ ending (Mock.run event_log) = Returned 1
  /\ ~ (forall (State : Type) (invoke : call -> State -> bool * State)
           (log1 log2 : list string) (s : State) (line : string)
           (m : groups),
          first_match scan_order line = Some (event_event, m) ->
          fst (invoke (call_of event_event m)
                 (scan_state (scan invoke log1 s))) = false ->
          In line (replay_lines (scan invoke (log1 ++ line :: log2) s))).
Proof.
  split; [run_parser|]. split; [run_parser|]. split; [run_parser|].
  split; [run_parser|]. split; [run_parser|].
  intros H.
  assert (Hin : In event_line
                  (replay_lines (scan Mock.invoke ([] ++ event_line :: []) []))).
  { apply (H _ Mock.invoke [] [] [] event_line
             [("node", "0"); ("thread", "7f3a"); ("idone", "1");
              ("genone", "0"); ("idtwo", "2"); ("gentwo", "0")]);
      vm_compute; reflexivity. }
  vm_compute in Hin. exact Hin.
Qed.

(** C3, amended. Every kind but utility, memory, index space, field space,
    top-level task, event-to-event edge and implicit-event edge is
    deferrable: a line of such a kind whose call returns false during the
    scan is added to the deferred lines.  An event-to-event or
    implicit-event edge is dispatched once by the scan, whatever its call
    returns, is never deferred, and matches no pattern of the loop.  A
    deferred line of a kind the loop has a pattern for is dispatched again
    by each iteration, and put in [to_delete] when its call returns true. *)
Theorem tested_kinds_deferred {State : Type}
    (invoke : call -> State -> bool * State) :
  (forall k, tested k = true
             <-> ~ In k [utility; memory; top_index; field_space; top_task;
                         event_event; implicit_event])
  /\ (forall log1 log2 s line k m,
        first_match scan_order line = Some (k, m) -> tested k = true ->
        fst (invoke (call_of k m) (scan_state (scan invoke log1 s))) = false ->
        In line (replay_lines (scan invoke (log1 ++ line :: log2) s)))
  /\ (forall log s line k m,
        first_match scan_order line = Some (k, m) ->
        k = event_event \/ k = implicit_event ->
        (forall v, scan_line invoke v line
                   = mkScan (matches v + 1) (replay_lines v)
                       (snd (invoke (call_of k m) (scan_state v)))
                       (printed v))
        /\ ~ In line (replay_lines (scan invoke log s))
        /\ (forall p, In p (passes (parse_log_file invoke log s)) ->
                      ~ In line (before p))
        /\ first_match replay_order line = None)
  /\ (forall v line k m,
        first_match scan_order line = Some (k, m) -> In k replay_order ->
        replay_line invoke v line
        = (snd (invoke (call_of k m) (fst v)),
           if fst (invoke (call_of k m) (fst v))
           then set_add line (snd v) else snd v)).
Proof.
  split; [|split; [|split]].
  - intros k. rewrite <- tested_false_iff. destruct (tested k); split;
      intros; congruence.
  - intros log1 log2 s line k m H T Hf. unfold scan.
    rewrite scan_from_app, scan_from_cons. apply scan_from_keeps.
    rewrite (scan_line_matched _ _ _ _ _ H). cbn [replay_lines].
    unfold scan in Hf. rewrite T, Hf. cbn [negb andb].
    apply in_or_app. right. now left.
  - intros log s line k m H Hk.
    assert (T : tested k = false) by (destruct Hk; subst; reflexivity).
    destruct (untested_not_deferred invoke log s line k m H T)
      as (H1 & H2 & H3).
    repeat split; try assumption.
    rewrite (replay_of_scan _ _ _ H). destruct Hk; subst; reflexivity.
  - intros v line k m H Hin.
    destruct (replay_line_cases invoke v line)
      as [[H' _]|(k' & m' & H' & ->)];
      rewrite (replay_of_scan _ _ _ H) in H'; unfold kind_in in H';
      destruct (in_dec kind_eq_dec k replay_order); try contradiction;
      try discriminate.
    now inversion H'.
Qed.

Lemma tested_kinds_deferred_witness :
  In processor_line (replay_lines (scan Mock.invoke processor_log []))
  /\ ~ In event_line (replay_lines (scan Mock.invoke event_log [])).
Proof.
  split.
  - apply (proj1 (proj2 (tested_kinds_deferred Mock.invoke))
             [] [Mock.line "Utility 0"] [] processor_line processor
             [("node", "0"); ("thread", "7f3a"); ("pid", "7");
              ("util", "0"); ("kind", "1")]);
      vm_compute; reflexivity.
  - apply (proj1 (proj2 (proj2 (tested_kinds_deferred Mock.invoke)))
             event_log [] event_line event_event
             [("node", "0"); ("thread", "7f3a"); ("idone", "1");
              ("genone", "0"); ("idtwo", "2"); ("gentwo", "0")]).
    + vm_compute; reflexivity.
    + now left.
Defined.

(** The loop has no pattern for five of the kinds the scan defers: on a
    line of one of them an iteration makes no call and resolves nothing. *)
Lemma replay_line_skips {State : Type}
    (invoke : call -> State -> bool * State) v line k m :
  first_match scan_order line = Some (k, m) ->
  In k [field_create; region; deletion; index_slice; slice_slice] ->
  tested k = true /\ replay_line invoke v line = v.
Proof.
  intros H Hk.
  assert (E : tested k = true /\ kind_in k replay_order = false).
  { simpl in Hk. intuition (subst; split; reflexivity). }
  destruct E as [T K]. split; [assumption|].
  unfold replay_line. now rewrite (replay_of_scan _ _ _ H), K.
Qed.

(** X13. Once the scan has deferred a line of one of the five kinds the
    loop has no pattern for (field creation, region, deletion operation,
    index slice, slice of a slice), the run raises the assertion error,
    whatever the state object answers afterwards. *)
Lemma unreplayed_kind_stalls {State : Type}
    (invoke : call -> State -> bool * State) log s line k m :
  In line (replay_lines (scan invoke log s)) ->
  first_match scan_order line = Some (k, m) ->
  In k [field_create; region; deletion; index_slice; slice_slice] ->
  ending (parse_log_file invoke log s) = AssertionError.
Proof.
  intros Hin H Hk. apply (unreplayed_line_stalls invoke log s line Hin).
  rewrite (replay_of_scan _ _ _ H). simpl in Hk.
  intuition (subst; reflexivity).
Qed.

(** C1, on the code.  A field logged before its field space is deferred
    by the scan; the loop never calls [add_field] again, although the call
    would now succeed, and the run stalls.  The same holds of a region, a
    deletion operation, an index slice and a slice of a slice. *)
Theorem deferred_kinds_not_replayed :
  (ending (Mock.run field_log) = AssertionError
   /\ snd (final_state (Mock.run field_log))
      = [(add_field 1 2, false); (add_field_space 1, true)]
   /\ Mock.ready (add_field 1 2) (fst (final_state (Mock.run field_log)))
      = true)
  /\ (ending (Mock.run region_log) = AssertionError
      /\ made (add_region 1 2 3) false
           (snd (final_state (Mock.run region_log))) = 1
      /\ made (add_region 1 2 3) true
           (snd (final_state (Mock.run region_log))) = 0
      /\ Mock.ready (add_region 1 2 3)
           (fst (final_state (Mock.run region_log))) = true)
  /\ (ending (Mock.run deletion_log) = AssertionError
      /\ made (add_deletion 1 2) false
           (snd (final_state (Mock.run deletion_log))) = 1
      /\ made (add_deletion 1 2) true
           (snd (final_state (Mock.run deletion_log))) = 0
      /\ Mock.ready (add_deletion 1 2)
           (fst (final_state (Mock.run deletion_log))) = true)
  /\ (ending (Mock.run index_slice_log) = AssertionError
      /\ made (add_index_slice 1 2) false
           (snd (final_state (Mock.run index_slice_log))) = 1
      /\ made (add_index_slice 1 2) true
           (snd (final_state (Mock.run index_slice_log))) = 0
      /\ Mock.ready (add_index_slice 1 2)
           (fst (final_state (Mock.run index_slice_log))) = true)
  /\ (ending (Mock.run slice_slice_log) = AssertionError
      /\ made (add_slice_slice 1 2) false
           (snd (final_state (Mock.run slice_slice_log))) = 1
      /\ made (add_slice_slice 1 2) true
           (snd (final_state (Mock.run slice_slice_log))) = 0
      /\ Mock.ready (add_slice_slice 1 2)
           (fst (final_state (Mock.run slice_slice_log))) = true).
Proof. run_parser. Qed.

(** C7, on the code.  The same affinity is logged twice and deferred
    twice.  In the first iteration both calls return true; [to_delete],
    a set, holds the line once, and one copy of it is removed.  The second
    iteration makes the call a third time: three calls have returned true
    for two records. *)
Theorem duplicate_line_dispatched_again :
  replay_lines (scan (recording Mock.invoke) twice_log ([], []))
  = [affinity_line; affinity_line]
  /\ passes (Mock.run twice_log)
     = [mkPass [affinity_line; affinity_line] [affinity_line]
          [affinity_line];
        mkPass [affinity_line] [affinity_line] []]
  /\ snd (final_state (Mock.run twice_log))
     = [(set_proc_mem 7 3 10 20, false); (set_proc_mem 7 3 10 20, false);
        (add_memory 3 100, true); (add_utility 0, true);
        (add_processor 7 0 1, true);
        (set_proc_mem 7 3 10 20, true); (set_proc_mem 7 3 10 20, true);
        (set_proc_mem 7 3 10 20, true)]
  /\ made (set_proc_mem 7 3 10 20) true
       (snd (final_state (Mock.run twice_log))) = 3
  /\ count_occ string_dec twice_log affinity_line = 2
  /\ ending (Mock.run twice_log) = Returned 5.
Proof. run_parser. Qed.

(** ** The theorems at work on the example logs *)

Lemma returned_count_witness :
  5%Z = Z.of_nat (List.length (filter matched twice_log))
  /\ 5%Z = matches (scan Mock.invoke twice_log []).
Proof.
  apply (returned_count Mock.invoke twice_log [] 5). vm_compute; reflexivity.
Defined.

Lemma unmatched_line_skipped_witness :
  ending (parse_log_file Mock.invoke (banner_log1 ++ banner :: banner_log2) [])
  = ending (parse_log_file Mock.invoke (banner_log1 ++ banner_log2) [])
  /\ ~ In banner
         (deferred
            (parse_log_file Mock.invoke
               (banner_log1 ++ banner :: banner_log2) [])).
Proof.
  destruct (unmatched_line_skipped Mock.invoke banner_log1 banner_log2
              banner []) as (_ & He & _ & _ & _ & _ & Hd).
  - vm_compute; reflexivity.
  - split; assumption.
Defined.

Lemma abort_iff_no_progress_witness :
  ending (parse_log_file Mock.invoke orphan_log []) = AssertionError
  /\ (deferred (parse_log_file Mock.invoke twice_log []) = []).
Proof.
  split.
  - apply (proj1 (abort_iff_no_progress Mock.invoke orphan_log [])).
    exists (mkPass [subspace_line] [] [subspace_line]).
    split; [vm_compute; auto|]. split; [discriminate | reflexivity].
  - apply (proj1 (proj2 (proj2 (abort_iff_no_progress Mock.invoke twice_log
                                  [])))).
    exists 5%Z. vm_compute; reflexivity.
Defined.

Lemma replay_terminates_witness :
  replay_loop Mock.invoke 7 (matches (scan Mock.invoke twice_log []))
    (scan_state (scan Mock.invoke twice_log []))
    (replay_lines (scan Mock.invoke twice_log []))
    (printed (scan Mock.invoke twice_log []))
  = parse_log_file Mock.invoke twice_log [].
Proof.
  apply (proj2 (proj2 (proj2 (replay_terminates Mock.invoke twice_log [])))).
  vm_compute. lia.
Defined.

(** * Further properties of the parser *)

(** ** What a match binds *)




(** ** Lines of the shape of a pattern are matched *)

Lemma strip_append (l r : string) : strip l (l ++ r)%string = Some r.
Proof.
  induction l as [|a l IH]; simpl; [reflexivity|].
  now rewrite Ascii.eqb_refl.
Qed.

Lemma many1_stop c k acc rest :
  Shape.stops c rest = true -> many1 c k acc rest = None.
Proof.
  destruct rest as [|b rest]; simpl; [reflexivity|].
  intros H. apply negb_true_iff in H. now rewrite H.
Qed.

Lemma many1_cons c k acc a s :
  many1 c k acc (String a s)
  = if in_class c a
    then match many1 c k (acc ++ String a "")%string s with
         | Some g => Some g
         | None => k (acc ++ String a "")%string s
         end
    else None.
Proof. reflexivity. Qed.

(** A repetition takes the whole run of characters of its set when what
    follows matches from there. *)
Lemma many1_greedy c k : forall v a acc rest g,
  in_class c a = true -> Classifier.all_in c v = true ->
  Shape.stops c rest = true ->
  k (acc ++ String a v)%string rest = Some g ->
  many1 c k acc (String a v ++ rest)%string = Some g.
Proof.
  induction v as [|b v IH]; intros a acc rest g Ha Hv Hs Hk;
    change (String a ?x ++ rest)%string with (String a (x ++ rest)%string);
    rewrite many1_cons, Ha.
  - cbn [append]. rewrite (many1_stop _ _ _ _ Hs). exact Hk.
  - cbn [Classifier.all_in] in Hv. apply andb_prop in Hv as [Hb Hv].
    rewrite (IH b (acc ++ String a "")%string rest g Hb Hv Hs);
      [reflexivity|].
    now rewrite ClassifierFacts.append_assoc.
Qed.

Lemma render_match (p : pattern) : forall vs tail,
  Shape.separated p vs tail = true ->
  re_match p (Shape.render p vs ++ tail)%string = Some (Shape.bound p vs).
Proof.
  induction p as [|i p IH]; intros vs tail H.
  - destruct vs; [reflexivity | discriminate].
  - destruct i as [l|n c|n c]; cbn [Shape.separated] in H;
      cbn [Shape.render Shape.bound re_match].
    + rewrite ClassifierFacts.append_assoc, strip_append. now apply IH.
    + destruct vs as [|[|a [|? ?]] vs]; try discriminate.
      apply andb_prop in H as [Ha H]. cbn [append]. rewrite Ha.
      rewrite (IH _ _ H). now destruct n.
    + destruct vs as [|[|a v] vs]; try discriminate.
      apply andb_prop in H as [H H4]. apply andb_prop in H as [H H3].
      apply andb_prop in H as [H1 H2].
      rewrite ClassifierFacts.append_assoc.
      apply many1_greedy; auto.
      cbn [append]. rewrite (IH _ _ H4). now destruct n.
Qed.

(** X2. A line of the shape of a pattern, with values of the sets of the
    pattern in the place of its groups, each repetition followed by a
    character outside its set (or by the end of the line), is classified
    to this pattern, whatever the order in which the patterns are tried,
    and its groups are bound to these values: such a line is never skipped
    and never taken for a line of another kind. *)
Theorem shaped_line_classified (k : kind) (vs : list string) (tail : string) :
  Shape.separated (pat k) vs tail = true ->
  first_match scan_order (Shape.render (pat k) vs ++ tail)%string
  = Some (k, Shape.bound (pat k) vs)
  /\ (kind_in k replay_order = true ->
      first_match replay_order (Shape.render (pat k) vs ++ tail)%string
      = Some (k, Shape.bound (pat k) vs)).
Proof.
  intros H. apply render_match in H.
  assert (S : first_match scan_order (Shape.render (pat k) vs ++ tail)%string
              = Some (k, Shape.bound (pat k) vs)).
  { apply first_match_found; [apply scan_order_complete | assumption]. }
  split; [exact S|]. intros R. now rewrite (replay_of_scan _ _ _ S), R.
Qed.

Lemma shaped_line_classified_witness :
  first_match scan_order
    (Shape.render (pat proc_mem) ["0"; "7f3a"; "3"; "7"; "3"; "10"; "20"]
     ++ String (ascii_of_nat 10) EmptyString)%string
  = Some (proc_mem,
          Shape.bound (pat proc_mem) ["0"; "7f3a"; "3"; "7"; "3"; "10"; "20"]).
Proof.
  apply (shaped_line_classified proc_mem).
  vm_compute; reflexivity.
Defined.

(** ** The integers passed to the state object *)






(** ** The calls made in a run *)

Section Calls.

Context {State : Type}.
Variable invoke : call -> State -> bool * State.

Lemma scan_trace log : forall vt,
  exists tnew,
    snd (scan_state (scan_from (recording invoke) vt log))
    = snd (scan_state vt) ++ tnew
    /\ map fst tnew = flat_map scan_call log
    /\ replay_lines (scan_from (recording invoke) vt log)
       = replay_lines vt ++ deferred_by log tnew.
Proof.
  induction log as [|line log IH]; intros vt.
  - exists []. cbn. now rewrite !app_nil_r.
  - rewrite scan_from_cons. cbn [flat_map deferred_by]. unfold scan_call at 1.
    destruct (first_match scan_order line) as [[k m]|] eqn:H.
    + rewrite (scan_line_matched _ _ _ _ _ H).
      set (v1 := mkScan _ _ _ _).
      destruct (IH v1) as (tnew & Ht & Hc & Hr). subst v1.
      cbn [scan_state replay_lines] in Ht, Hr.
      destruct (recording_call invoke (call_of k m) (scan_state vt))
        as (H1 & _ & H3).
      exists ((call_of k m, fst (invoke (call_of k m) (fst (scan_state vt))))
              :: tnew).
      split; [now rewrite Ht, H3, <- app_assoc|].
      split; [cbn; now rewrite Hc|].
      rewrite Hr, H1. cbn iota. clear Ht Hr.
      destruct (tested k && negb (fst (invoke _ _))); [|reflexivity].
      now rewrite <- app_assoc.
    + rewrite (scan_line_unmatched _ _ _ H).
      set (v1 := mkScan _ _ _ _).
      destruct (IH v1) as (tnew & Ht & Hc & Hr). subst v1.
      exists tnew. auto.
Qed.

Lemma scan_call_count (log : list string) :
  List.length (flat_map scan_call log) = List.length (filter matched log).
Proof.
  induction log as [|line log IH]; [reflexivity|].
  cbn [flat_map filter]. rewrite length_app, IH.
  unfold scan_call, matched, unmatched.
  destruct (first_match scan_order line) as [[k m]|]; reflexivity.
Qed.

(** X4. During the scan the state object receives one call for each line
    that matches a pattern, in the order of the log, and none for the other
    lines; the lines deferred are, in that order, the lines of a kind whose
    call is tested for which this call returned false. *)
Theorem scan_calls_in_order (log : list string) (s : State) :
  map fst (snd (scan_state (scan (recording invoke) log (s, []))))
  = flat_map scan_call log
  /\ List.length (snd (scan_state (scan (recording invoke) log (s, []))))
     = List.length (filter matched log)
  /\ replay_lines (scan (recording invoke) log (s, []))
     = deferred_by log
         (snd (scan_state (scan (recording invoke) log (s, [])))).
Proof.
  unfold scan.
  destruct (scan_trace log (mkScan 0 [] (s, []) [])) as (tnew & Ht & Hc & Hr).
  cbn [scan_state replay_lines snd app] in Ht, Hr. rewrite Ht, Hr.
  split; [assumption|]. split; [|reflexivity].
  now rewrite <- scan_call_count, <- Hc, length_map.
Qed.

Lemma replay_fold_trace lines :
  forall (v : (State * list (call * bool)) * list string),
  map fst (snd (fst (fold_left (replay_line (recording invoke)) lines v)))
  = map fst (snd (fst v)) ++ flat_map replay_call lines.
Proof.
  induction lines as [|line lines IH]; intros v; cbn [fold_left flat_map].
  - now rewrite app_nil_r.
  - rewrite IH. unfold replay_call at 2.
    destruct (replay_line_cases (recording invoke) v line)
      as [[H ->]|(k & m & H & ->)]; rewrite H; [reflexivity|].
    cbn [fst snd].
    destruct (recording_call invoke (call_of k m) (fst v)) as (_ & _ & H3).
    rewrite H3, map_app, <- app_assoc. reflexivity.
Qed.

Lemma replay_loop_trace : forall fuel count st lines out,
  List.length lines <= fuel ->
  map fst
    (snd (final_state (replay_loop (recording invoke) fuel count st lines out)))
  = map fst (snd st)
    ++ flat_map (fun p => flat_map replay_call (before p))
         (passes (replay_loop (recording invoke) fuel count st lines out)).
Proof.
  induction fuel as [|fuel IH]; intros count st lines out Hlen.
  - destruct lines; [|simpl in Hlen; lia]. cbn. now rewrite app_nil_r.
  - destruct lines as [|l lines].
    { rewrite replay_loop_nil. cbn. now rewrite app_nil_r. }
    rewrite replay_loop_cons.
    pose proof (replay_fold_trace (l :: lines) (st, [])) as T.
    cbn [fst snd] in T. fold (replay_pass (recording invoke) st (l :: lines)) in T.
    destruct (replay_pass (recording invoke) st (l :: lines))
      as [st' [|x td]] eqn:E; cbn [fst] in T.
    + cbn [final_state passes flat_map before]. now rewrite app_nil_r.
    + destruct (replay_pass_removes _ _ _ _ _ _ E) as (r' & -> & Hl & _).
      unfold after_pass. cbn [final_state passes flat_map before].
      rewrite IH by (simpl in Hlen, Hl; lia).
      now rewrite T, <- app_assoc.
Qed.

(** X5. The calls made on the state object in a whole run are: for each
    line of the log that matches a pattern, one call, in the order of the
    log; then, for each iteration of the loop in turn, one call for each
    deferred line that a pattern of the loop matches, in the order of the
    deferred lines.  So in an iteration a deferred line is dispatched once
    at most. *)
Theorem run_calls_in_order (log : list string) (s : State) :
  map fst
    (snd (final_state (parse_log_file (recording invoke) log (s, []))))
  = flat_map scan_call log
    ++ flat_map (fun p => flat_map replay_call (before p))
         (passes (parse_log_file (recording invoke) log (s, []))).
Proof.
  unfold parse_log_file. rewrite replay_loop_trace by apply Nat.le_refl.
  unfold scan.
  destruct (scan_trace log (mkScan 0 [] (s, []) [])) as (tnew & Ht & Hc & _).
  cbn [scan_state snd app] in Ht. now rewrite Ht, Hc.
Qed.

End Calls.

(** ** The order of the deferred lines *)

Lemma subseq_refl (l : list string) : subseq l l.
Proof. induction l; constructor; assumption. Qed.

Lemma subseq_empty (l : list string) : subseq [] l.
Proof. induction l; constructor; assumption. Qed.

Lemma subseq_trans (l1 l2 l3 : list string) :
  subseq l1 l2 -> subseq l2 l3 -> subseq l1 l3.
Proof.
  intros H12 H23. revert l1 H12.
  induction H23 as [|x l2 l3 _ IH|x l2 l3 _ IH]; intros l1 H12.
  - assumption.
  - inversion H12; subst; constructor; auto.
  - constructor. auto.
Qed.

Lemma subseq_app (l1 l1' l2 l2' : list string) :
  subseq l1 l1' -> subseq l2 l2' -> subseq (l1 ++ l2) (l1' ++ l2').
Proof. induction 1; intros H2; simpl; try constructor; auto. Qed.

Lemma subseq_length (l1 l2 : list string) :
  subseq l1 l2 -> List.length l1 <= List.length l2.
Proof. induction 1; simpl; lia. Qed.

Lemma list_remove_subseq x : forall l r,
  list_remove x l = Some r -> subseq r l.
Proof.
  induction l as [|y l IH]; intros r H; simpl in H; [discriminate|].
  destruct (String.eqb y x).
  - inversion H; subst. constructor. apply subseq_refl.
  - destruct (list_remove x l) as [r0|]; [|discriminate].
    inversion H; subst. constructor. now apply IH.
Qed.

Lemma remove_each_subseq : forall td l r,
  remove_each td l = Some r -> subseq r l.
Proof.
  induction td as [|x td IH]; intros l r H; simpl in H.
  - inversion H. apply subseq_refl.
  - destruct (list_remove x l) as [r0|] eqn:E; [|discriminate].
    eapply subseq_trans; [eapply IH; eassumption|].
    eapply list_remove_subseq; eassumption.
Qed.





Lemma linked_subseq : forall ps start final,
  linked start ps final ->
  Forall (fun p => subseq (after p) (before p)) ps ->
  forall p, In p ps -> subseq (before p) start.
Proof.
  induction ps as [|q ps IH]; intros start final L F p Hp; [destruct Hp|].
  simpl in L. destruct L as (Hb & _ & L). inversion F as [|? ? Hq F']; subst.
  destruct Hp as [<-|Hp]; [apply subseq_refl|].
  eapply subseq_trans; [eapply IH; eassumption | assumption].
Qed.


Section Order.

Context {State : Type}.
Variable invoke : call -> State -> bool * State.

Lemma scan_from_subseq log : forall v,
  exists d, replay_lines (scan_from invoke v log) = replay_lines v ++ d
            /\ subseq d log
            /\ List.length d <= List.length (filter matched log).
Proof.
  induction log as [|line log IH]; intros v.
  - exists []. cbn. rewrite app_nil_r. repeat split; [constructor | lia].
  - rewrite scan_from_cons. cbn [filter]. unfold matched at 1.
    destruct (scan_line_cases line) as [[H ->]|(k & m & H & ->)].
    + rewrite (scan_line_unmatched _ _ _ H). set (v1 := mkScan _ _ _ _).
      destruct (IH v1) as (d & Hd & Hs & Hl). subst v1. exists d.
      repeat split; [exact Hd | now constructor | exact Hl].
    + rewrite (scan_line_matched _ _ _ _ _ H). set (v1 := mkScan _ _ _ _).
      destruct (IH v1) as (d & Hd & Hs & Hl). subst v1.
      cbn [replay_lines] in Hd. cbn [negb List.length].
      destruct (tested k && negb _).
      * exists (line :: d). rewrite Hd, <- app_assoc.
        repeat split; [now constructor | simpl; lia].
      * exists d. repeat split; [exact Hd | now constructor | lia].
Qed.

(** X6. The deferred lines keep the order of the log: what the scan
    defers is made of lines of the log, in their order, and each iteration
    of the loop goes through lines of that list, in their order, and leaves
    them in their order. *)
Theorem deferred_in_log_order (log : list string) (s : State) :
  subseq (replay_lines (scan invoke log s)) log
  /\ (forall p, In p (passes (parse_log_file invoke log s)) ->
        subseq (before p) (replay_lines (scan invoke log s))
        /\ subseq (after p) (before p)).
Proof.
  split.
  - unfold scan. destruct (scan_from_subseq log (mkScan 0 [] s []))
      as (d & -> & Hs & _). exact Hs.
  - assert (F : Forall (fun p => subseq (after p) (before p))
                  (passes (parse_log_file invoke log s))).
    { destruct (run_spec invoke log s) as [_ [(_ & _ & _ & F)|(_ & _ & _ & C)]].
      - eapply Forall_impl; [|exact F]. intros p (_ & H & _).
        eapply remove_each_subseq; eassumption.
      - destruct C as (ps & p & -> & F & (_ & St) & _). apply Forall_app.
        split.
        + eapply Forall_impl; [|exact F]. intros q (_ & H & _).
          eapply remove_each_subseq; eassumption.
        + constructor; [rewrite St; apply subseq_refl | constructor]. }
    intros p Hp. split.
    + destruct (run_spec invoke log s) as [L _].
      eapply linked_subseq; eassumption.
    + rewrite Forall_forall in F. now apply F.
Qed.

(** *** The number of iterations *)



End Order.

(** ** Runs that need no replay, and what a run that returns has done *)

Section Runs.

Context {State : Type}.
Variable invoke : call -> State -> bool * State.

Lemma scan_from_ready log :
  (forall c s, fst (invoke c s) = true) ->
  forall v, replay_lines (scan_from invoke v log) = replay_lines v.
Proof.
  intros R. induction log as [|line log IH]; intros v; [reflexivity|].
  rewrite scan_from_cons, IH.
  destruct (scan_line_cases line) as [[H _]|(k & m & H & _)].
  - now rewrite (scan_line_unmatched _ _ _ H).
  - rewrite (scan_line_matched _ _ _ _ _ H). cbn [replay_lines].
    rewrite R. now rewrite andb_false_r.
Qed.

(** X8. On a state object whose calls all return true, nothing is
    deferred: the loop makes no iteration, and the run returns the number of
    lines that match a pattern, having printed one message for each of
    the other lines and nothing else. *)
Theorem ready_state_needs_no_replay (log : list string) (s : State) :
  (forall c s', fst (invoke c s') = true) ->
  parse_log_file invoke log s
  = mkResult (Returned (Z.of_nat (List.length (filter matched log))))
      (scan_state (scan invoke log s))
      (map skipping (filter unmatched log)) [] [].
Proof.
  intros R. unfold parse_log_file.
  assert (E : replay_lines (scan invoke log s) = [])
    by (unfold scan; now rewrite scan_from_ready).
  rewrite E, replay_loop_nil. unfold scan.
  now rewrite scan_from_matches, scan_from_printed.
Qed.

Lemma scan_from_unmatched log :
  Forall (fun l => first_match scan_order l = None) log ->
  forall v, scan_from invoke v log
            = mkScan (matches v) (replay_lines v) (scan_state v)
                (printed v ++ map skipping log).
Proof.
  induction 1 as [|line log H _ IH]; intros v.
  - cbn. rewrite app_nil_r. now destruct v.
  - rewrite scan_from_cons, IH, (scan_line_unmatched _ _ _ H).
    cbn [matches replay_lines scan_state printed map].
    now rewrite <- app_assoc.
Qed.

(** X9. On a log none of whose lines matches a pattern, the empty log
    among them, the run returns 0, makes no call and leaves the state
    object as it was, and prints one message for each line, in the order
    of the log. *)
Theorem unrelated_log_returns_zero (log : list string) (s : State) :
  Forall (fun l => first_match scan_order l = None) log ->
  parse_log_file invoke log s
  = mkResult (Returned 0) s (map skipping log) [] [].
Proof.
  intros H. unfold parse_log_file, scan.
  rewrite (scan_from_unmatched log H). cbn [matches replay_lines scan_state
    printed List.length app]. apply replay_loop_nil.
Qed.

Lemma filter_split (log : list string) :
  List.length (filter matched log) + List.length (filter unmatched log)
  = List.length log.
Proof.
  induction log as [|l log IH]; [reflexivity|]. cbn [filter].
  unfold matched at 1. destruct (unmatched l); simpl; lia.
Qed.

(** X10. When the run returns, every line of the log has been counted or
    reported, and none both: the count returned and the number of messages
    printed add up to the number of lines of the log. *)
Theorem counted_or_skipped (log : list string) (s : State) (m : Z) :
  ending (parse_log_file invoke log s) = Returned m ->
  (m + Z.of_nat (List.length (stdout (parse_log_file invoke log s)))
   = Z.of_nat (List.length log))%Z.
Proof.
  intros H.
  destruct (run_spec invoke log s) as [_ [(He & _ & Ho & _)|(He & _)]];
    rewrite He in H; [|discriminate].
  inversion H; subst m. rewrite Ho. unfold scan.
  rewrite scan_from_matches, scan_from_printed. cbn [matches printed app].
  rewrite length_map. pose proof (filter_split log). lia.
Qed.

(** X11. [to_delete] is a set, and the order in which Python goes through
    it is not specified.  Whatever this order, no [replay_lines.remove(line)]
    raises, and the list left is the same: the lines of [replay_lines], in
    their order, less one copy of each line of [to_delete]. *)
Theorem removal_order_irrelevant (s : State) (lines td : list string) :
  Permutation (snd (replay_pass invoke s lines)) td ->
  exists lines',
    remove_each td lines = Some lines'
    /\ remove_each (snd (replay_pass invoke s lines)) lines = Some lines'
    /\ List.length lines' + List.length td = List.length lines
    /\ subseq lines' lines.
Proof.
  intros P.
  destruct (replay_pass_sound invoke s lines) as (N & I & _).
  destruct (remove_each_in _ _ N I) as (r & Hr & Hl & _).
  exists r. rewrite <- (remove_each_order _ _ P lines).
  split; [assumption|]. split; [assumption|]. split.
  - rewrite <- (Permutation_length P). exact Hl.
  - eapply remove_each_subseq; eassumption.
Qed.




End Runs.

(** ** Witnesses of the properties above *)

Lemma ready_state_needs_no_replay_witness :
  parse_log_file (fun (c : call) (s : list call) => (true, s ++ [c]))
    twice_log []
  = mkResult (Returned (Z.of_nat (List.length (filter matched twice_log))))
      (scan_state
         (scan (fun (c : call) (s : list call) => (true, s ++ [c]))
            twice_log []))
      (map skipping (filter unmatched twice_log)) [] [].
Proof.
  apply (ready_state_needs_no_replay
           (fun (c : call) (s : list call) => (true, s ++ [c])) twice_log []).
  intros c s'. reflexivity.
Defined.

Lemma unrelated_log_returns_zero_witness :
  parse_log_file Mock.invoke [banner; "not a record"] []
  = mkResult (Returned 0) [] (map skipping [banner; "not a record"]) [] [].
Proof.
  apply (unrelated_log_returns_zero Mock.invoke [banner; "not a record"] []).
  apply Forall_cons; [vm_compute; reflexivity|].
  apply Forall_cons; [vm_compute; reflexivity|]. apply Forall_nil.
Defined.

Lemma counted_or_skipped_witness :
  (2 + Z.of_nat
         (List.length
            (stdout
               (parse_log_file Mock.invoke
                  (banner_log1 ++ banner :: banner_log2) [])))
   = Z.of_nat (List.length (banner_log1 ++ banner :: banner_log2)))%Z.
Proof.
  apply (counted_or_skipped Mock.invoke
           (banner_log1 ++ banner :: banner_log2) [] 2).
  vm_compute; reflexivity.
Defined.

Lemma removal_order_irrelevant_witness :
  exists lines',
    remove_each [affinity_line; processor_line]
      [processor_line; affinity_line] = Some lines'
    /\ remove_each
         (snd (replay_pass Mock.invoke [add_utility 0; add_memory 3 100]
                 [processor_line; affinity_line]))
         [processor_line; affinity_line] = Some lines'
    /\ List.length lines' + List.length [affinity_line; processor_line]
       = List.length [processor_line; affinity_line]
    /\ subseq lines' [processor_line; affinity_line].
Proof.
  apply (removal_order_irrelevant Mock.invoke
           [add_utility 0; add_memory 3 100]
           [processor_line; affinity_line] [affinity_line; processor_line]).
  vm_compute. apply perm_swap.
Defined.


Lemma unreplayed_kind_stalls_witness :
  ending (parse_log_file Mock.invoke field_log []) = AssertionError.
Proof.
  apply (unreplayed_kind_stalls Mock.invoke field_log []
           (Mock.line "Field Creation 1 2") field_create
           [("node", "0"); ("thread", "7f3a"); ("uid", "1"); ("fid", "2")]).
  - vm_compute. now left.
  - vm_compute; reflexivity.
  - now left.
Defined.

(** ** The shape of a classified line *)

Lemma re_match_shape (p : pattern) : forall s g,
  re_match p s = Some g ->
  exists vs tail,
    s = (Shape.render p vs ++ tail)%string /\ Shape.bound p vs = g.
Proof.
  induction p as [|i p IH]; intros s g H.
  - inversion H. exists [], s. auto.
  - destruct i as [l|n c|n c]; cbn [re_match] in H.
    + destruct (strip l s) as [s'|] eqn:E; [|discriminate].
      apply ClassifierFacts.strip_app in E. subst s.
      destruct (IH _ _ H) as (vs & tail & -> & Hb).
      exists vs, tail. cbn [Shape.render Shape.bound].
      now rewrite ClassifierFacts.append_assoc.
    + destruct s as [|a s]; [discriminate|].
      destruct (in_class c a); [|discriminate].
      destruct (re_match p s) as [g0|] eqn:E; [|discriminate].
      destruct (IH _ _ E) as (vs & tail & -> & Hb).
      exists (String a EmptyString :: vs), tail.
      cbn [Shape.render Shape.bound append]. split; [reflexivity|].
      rewrite Hb. destruct n; now inversion H.
    + destruct (ClassifierFacts.many1_inv _ _ _ _ _ H)
        as (a & t & r & -> & _ & _ & Hk).
      cbn [append] in Hk.
      destruct (re_match p r) as [g0|] eqn:E; [|discriminate].
      destruct (IH _ _ E) as (vs & tail & -> & Hb).
      exists (String a t :: vs), tail.
      cbn [Shape.render Shape.bound append]. split.
      * now rewrite ClassifierFacts.append_assoc.
      * rewrite Hb. destruct n; now inversion Hk.
Qed.

(** X16. A line is only classified to a pattern when it begins with a
    text of the shape of this pattern, and the groups of the match are the
    texts found at the places of the groups: put back in the shape of the
    pattern, they give the line up to where the match stops. *)
Theorem classified_line_shape (ks : list kind) (line : string) (k : kind)
    (m : groups) :
  first_match ks line = Some (k, m) ->
  exists vs tail,
    line = (Shape.render (pat k) vs ++ tail)%string
    /\ Shape.bound (pat k) vs = m.
Proof.
  intros H. apply first_match_some in H as [_ H].
  eapply re_match_shape; eassumption.
Qed.

Lemma classified_line_shape_witness :
  exists vs tail,
    subspace_line = (Shape.render (pat index_subspace) vs ++ tail)%string
    /\ Shape.bound (pat index_subspace) vs
       = [("node", "0"); ("thread", "7f3a"); ("pid", "5"); ("uid", "6");
          ("color", "0")].
Proof.
  apply (classified_line_shape scan_order subspace_line index_subspace).
  vm_compute; reflexivity.
Defined.

(** ** Parsing a log in two parts *)

Section TwoParts.

Context {State : Type}.
Variable invoke : call -> State -> bool * State.

Lemma scan_from_core log : forall v v' : scan_vars State,
  replay_lines v = replay_lines v' -> scan_state v = scan_state v' ->
  replay_lines (scan_from invoke v log) = replay_lines (scan_from invoke v' log)
  /\ scan_state (scan_from invoke v log) = scan_state (scan_from invoke v' log).
Proof.
  induction log as [|l log IH]; intros v v' Hr Hs; [auto|].
  rewrite !scan_from_cons. apply IH.
  - destruct (scan_line_cases l) as [[H _]|(k & m & H & _)].
    + now rewrite !(scan_line_unmatched _ _ _ H).
    + rewrite !(scan_line_matched _ _ _ _ _ H). cbn [replay_lines].
      now rewrite Hr, Hs.
  - destruct (scan_line_cases l) as [[H _]|(k & m & H & _)].
    + now rewrite !(scan_line_unmatched _ _ _ H).
    + rewrite !(scan_line_matched _ _ _ _ _ H). cbn [scan_state].
      now rewrite Hs.
Qed.

Lemma replay_loop_count : forall fuel count count' (s : State) lines out,
  let r := replay_loop invoke fuel count s lines out in
  let r' := replay_loop invoke fuel count' s lines out in
  final_state r = final_state r' /\ stdout r = stdout r'
  /\ deferred r = deferred r' /\ passes r = passes r'
  /\ ending r = match ending r' with
                | Returned _ => Returned count
                | e => e
                end.
Proof.
  induction fuel as [|fuel IH]; intros count count' s lines out; cbv zeta.
  - destruct lines; simpl; auto.
  - destruct lines as [|l lines]; [rewrite !replay_loop_nil; simpl; auto|].
    rewrite !replay_loop_cons.
    destruct (replay_pass invoke s (l :: lines)) as [s' [|x td]];
      [simpl; auto|].
    destruct (remove_each (x :: td) (l :: lines)) as [r'|]; [|simpl; auto].
    destruct (IH count count' s' r' out) as (Hf & Ho & Hd & Hp & He).
    unfold after_pass. cbn [ending final_state stdout deferred passes].
    rewrite Hp. auto.
Qed.

Lemma replay_loop_stdout fuel count (s : State) lines out :
  List.length lines <= fuel ->
  stdout (replay_loop invoke fuel count s lines out)
  = out ++ stdout (replay_loop invoke fuel count s lines []).
Proof.
  intros Hf.
  destruct (replay_loop_out invoke fuel count s lines out [])
    as (He & _).
  destruct (replay_loop_spec invoke fuel count s lines out Hf)
    as [_ [(E & _ & -> & _)|(E & _ & -> & _)]];
    destruct (replay_loop_spec invoke fuel count s lines [] Hf)
      as [_ [(E' & _ & -> & _)|(E' & _ & -> & _)]];
    try (rewrite He in E; congruence).
  - now rewrite app_nil_r.
  - reflexivity.
Qed.

(** X17. A log can be parsed in two parts: when the scan of the first part
    defers nothing, the run on the whole log ends as the run on the second
    part started from the state the first part leaves, with the same state,
    deferred lines and iterations; what it prints is what the two runs
    print, one after the other; and when it returns, it returns the sum of
    the two counts. *)
Theorem parse_in_two_parts (log1 log2 : list string) (s : State) :
  replay_lines (scan invoke log1 s) = [] ->
  let r1 := parse_log_file invoke log1 s in
  let r2 := parse_log_file invoke log2 (final_state r1) in
  let r := parse_log_file invoke (log1 ++ log2) s in
  ending r1 = Returned (Z.of_nat (List.length (filter matched log1)))
  /\ final_state r = final_state r2
  /\ deferred r = deferred r2
  /\ passes r = passes r2
  /\ stdout r = stdout r1 ++ stdout r2
  /\ ending r = match ending r2 with
                | Returned m2 =>
                    Returned
                      (Z.of_nat (List.length (filter matched log1)) + m2)
                | e => e
                end.
Proof.
  intros H. cbv zeta.
  assert (R1 : parse_log_file invoke log1 s
               = mkResult
                   (Returned (Z.of_nat (List.length (filter matched log1))))
                   (scan_state (scan invoke log1 s))
                   (map skipping (filter unmatched log1)) [] []).
  { unfold parse_log_file. rewrite H, replay_loop_nil. unfold scan.
    now rewrite scan_from_matches, scan_from_printed. }
  rewrite R1. cbn [ending final_state stdout].
  split; [reflexivity|].
  set (s1 := scan_state (scan invoke log1 s)).
  unfold parse_log_file.
  set (v2 := scan invoke log2 s1).
  set (v := scan invoke (log1 ++ log2) s).
  assert (C : replay_lines v = replay_lines v2 /\ scan_state v = scan_state v2).
  { subst v v2. unfold scan at 1 3. rewrite scan_from_app.
    apply scan_from_core; [exact H | reflexivity]. }
  destruct C as [Cr Cs].
  assert (Cm : matches v
               = (Z.of_nat (List.length (filter matched log1)) + matches v2)%Z).
  { subst v v2. unfold scan. rewrite !scan_from_matches, filter_app, length_app.
    cbn [matches]. lia. }
  assert (Cp : printed v = map skipping (filter unmatched log1) ++ printed v2).
  { subst v v2. unfold scan. rewrite !scan_from_printed, filter_app, map_app.
    reflexivity. }
  rewrite Cr, Cs, Cm, Cp.
  set (n := List.length (replay_lines v2)).
  pose proof (replay_loop_count n
                (Z.of_nat (List.length (filter matched log1)) + matches v2)
                (matches v2) (scan_state v2) (replay_lines v2)
                (map skipping (filter unmatched log1) ++ printed v2)) as A.
  pose proof (replay_loop_out invoke n (matches v2) (scan_state v2)
                (replay_lines v2)
                (map skipping (filter unmatched log1) ++ printed v2)
                (printed v2)) as B.
  cbv zeta in A, B.
  destruct A as (Hf & Ho & Hd & Hp & He). destruct B as (He' & Hf' & Hd' & Hp').
  split; [congruence|]. split; [congruence|]. split; [congruence|]. split.
  - rewrite Ho. rewrite replay_loop_stdout by apply Nat.le_refl.
    rewrite (replay_loop_stdout n (matches v2) (scan_state v2)
               (replay_lines v2) (printed v2)) by apply Nat.le_refl.
    now rewrite app_assoc.
  - rewrite He, He'.
    destruct (replay_loop_spec invoke n (matches v2) (scan_state v2)
                (replay_lines v2) (printed v2) (Nat.le_refl _))
      as [_ [(E & _)|(E & _)]]; now rewrite E.
Qed.

End TwoParts.

Lemma parse_in_two_parts_witness :
  ending (parse_log_file Mock.invoke
            ([Mock.line "Utility 0"] ++ processor_log) [])
  = match ending
            (parse_log_file Mock.invoke processor_log
               (final_state
                  (parse_log_file Mock.invoke [Mock.line "Utility 0"] [])))
    with
    | Returned m2 =>
        Returned
          (Z.of_nat (List.length (filter matched [Mock.line "Utility 0"]))
           + m2)
    | e => e
    end.
Proof.
  apply (parse_in_two_parts Mock.invoke [Mock.line "Utility 0"] processor_log
           []).
  vm_compute; reflexivity.
Defined.

(** * The options of the test driver *)

Module TestDriverFacts.

Import TestDriver.

Lemma dict_get_app (a b : items) (key : string) :
  dict_get (a ++ b) key
  = match dict_get b key with
    | Some v => Some v
    | None => dict_get a key
    end.
Proof.
  induction a as [|[k v] a IH]; cbn [app dict_get].
  - now destruct (dict_get b key).
  - rewrite IH. now destruct (dict_get b key).
Qed.

Lemma dict_get_absent (d : items) (key : string) :
  ~ In key (map fst d) -> dict_get d key = None.
Proof.
  induction d as [|[k v] d IH]; intros H; cbn [dict_get]; [reflexivity|].
  cbn [map fst In] in H. rewrite IH by tauto.
  destruct (String.eqb k key) eqn:E; [|reflexivity].
  apply String.eqb_eq in E. tauto.
Qed.

Lemma one_zero_is_one (b : bool) : String.eqb (one_zero b) "1" = b.
Proof. now destruct b. Qed.

Lemma exported_visible (environ : items) (debug : bool)
    (launcher : list string) (f : features) (root_dir : string) key v :
  In (key, v) (exported debug launcher f root_dir) ->
  dict_get (test_env environ debug launcher f root_dir) key = Some v.
Proof.
  intros Hin. unfold test_env. rewrite dict_get_app.
  cbn [exported In] in Hin.
  repeat (destruct Hin as [Hin|Hin];
          [inversion Hin; subst; reflexivity|]).
  destruct Hin.
Qed.

Lemma read_back (env : items) (name var_prefix key : string) (b default : bool) :
  (var_prefix ++ upper name)%string = key ->
  dict_get env key = Some (one_zero b) ->
  option_enabled env name None var_prefix default = b.
Proof.
  intros <- H. unfold option_enabled. rewrite H. apply one_zero_is_one.
Qed.

(** X14. In the environment the tests are run in, each variable the
    driver sets has the value the driver gives it, whatever value it had in
    [os.environ]; every other variable has the value it has in
    [os.environ], and is absent when absent there. *)
Theorem test_env_overrides (environ : items) (debug : bool)
    (launcher : list string) (f : features) (root_dir : string) :
  (forall key v,
      In (key, v) (exported debug launcher f root_dir) ->
      dict_get (test_env environ debug launcher f root_dir) key = Some v)
  /\ (forall key,
        ~ In key (map fst (exported debug launcher f root_dir)) ->
        dict_get (test_env environ debug launcher f root_dir) key
        = dict_get environ key).
Proof.
  split.
  - intros key v. apply exported_visible.
  - intros key Hout. unfold test_env. rewrite dict_get_app.
    now rewrite (dict_get_absent _ _ Hout).
Qed.

Lemma test_env_overrides_witness :
  dict_get
    (test_env [("USE_SPY", "yes"); ("HOME", "/root")] true ["mpirun"]
       (features_enabled [("USE_SPY", "yes"); ("HOME", "/root")] None)
       "/legion")
    "USE_SPY"
  = Some "0"
  /\ dict_get
       (test_env [("USE_SPY", "yes"); ("HOME", "/root")] true ["mpirun"]
          (features_enabled [("USE_SPY", "yes"); ("HOME", "/root")] None)
          "/legion")
       "HOME"
     = dict_get [("USE_SPY", "yes"); ("HOME", "/root")] "HOME".
Proof.
  split.
  - apply (proj1 (test_env_overrides _ _ _ _ _)). vm_compute. tauto.
  - apply (proj2 (test_env_overrides _ _ _ _ _)). vm_compute.
    intuition discriminate.
Defined.

(** X15. The features decided by [run_tests], from the [--use] options or
    else from [os.environ], are those a program started in the test
    environment reads back from its [USE_...] variables, for gasnet, cuda,
    llvm, hdf, spy and rdir, whatever defaults it has; [TEST_HDF] and
    [TEST_SPY] go with [USE_HDF] and [USE_SPY]. *)
Theorem features_read_back (environ : items)
    (use_features : option (list string)) (debug : bool)
    (launcher : list string) (root_dir : string) (default : bool) :
  let f := features_enabled environ use_features in
  let env := test_env environ debug launcher f root_dir in
  feature_enabled env None "gasnet" default = use_gasnet f
  /\ feature_enabled env None "cuda" default = use_cuda f
  /\ feature_enabled env None "llvm" default = use_llvm f
  /\ feature_enabled env None "hdf" default = use_hdf f
  /\ feature_enabled env None "spy" default = use_spy f
  /\ feature_enabled env None "rdir" default = use_rdir f
  /\ module_enabled env None "hdf" default = use_hdf f
  /\ module_enabled env None "spy" default = use_spy f
  /\ dict_get env "DEBUG" = Some (one_zero debug).
Proof.
  cbv zeta. set (f := features_enabled environ use_features). clearbody f.
  unfold feature_enabled, module_enabled.
  repeat match goal with |- _ /\ _ => split end;
    try (eapply read_back; [vm_compute; reflexivity|]);
    apply exported_visible; cbn [exported In]; tauto.
Qed.

End TestDriverFacts.
